(** * sox.transform: the [Transformer] effect-chain builder

    A shallow embedding of [sox/transform.py] and the properties of its
    validation and encoding rules.

    The file has three layers:
    - [Py]: the fragment of the Python 3 object model the module relies on
      (dynamic values, numeric comparison, [==], [in], [str]/[format],
      [sorted], subtraction);
    - the embedding of the module itself: the [Transformer] record, an
      exception-and-state monad, and one definition per method;
    - the theorems. *)

From Stdlib Require Import ZArith QArith List String Ascii Bool Lia.
From Stdlib Require Import Floats DecimalString.
From Stdlib Require Import Sorting.Sorted Sorting.Permutation.
Import ListNotations.

Set Default Proof Using "Type".

(* A decimal float literal denotes the nearest binary64 value, as it does
   in Python. *)
Set Warnings "-inexact-float".

Local Open Scope string_scope.
Local Open Scope list_scope.
Local Open Scope Z_scope.

(* ================================================================== *)
(** * Python values and built-ins *)
(* ================================================================== *)

Module Py.

(** Dynamically typed values.  [bool], [int] and [float] are Python's
    numeric types ([bool] is a subclass of [int]); floats are IEEE 754
    binary64, integers are unbounded. *)
#[warnings="-register-all"]
Inductive pyval : Type :=
| VNone
| VBool (b : bool)
| VInt (z : Z)
| VFloat (f : float)
| VStr (s : string)
| VTuple (items : list pyval)
| VList (items : list pyval).

(** [isinstance(v, bool)], [isinstance(v, int)], [isinstance(v, list)],
    [isinstance(v, tuple)]. *)
Definition isinstance_bool (v : pyval) : bool :=
  match v with VBool _ => true | _ => false end.

Definition isinstance_int (v : pyval) : bool :=
  match v with VBool _ | VInt _ => true | _ => false end.

Definition isinstance_list (v : pyval) : bool :=
  match v with VList _ => true | _ => false end.

Definition isinstance_tuple (v : pyval) : bool :=
  match v with VTuple _ => true | _ => false end.

(** ** Exact numeric values

    Python compares numbers of different numeric types by their exact
    mathematical value.  [ereal] is the extended real a number denotes. *)
Inductive ereal : Type :=
| ENaN
| ENegInf
| EFin (q : Q)
| EPosInf.

(** The rational [(-1)^s * m * 2^e]. *)
Definition dyadic (s : bool) (m : positive) (e : Z) : Q :=
  let n := if s then Z.neg m else Z.pos m in
  match e with
  | Z0 => inject_Z n
  | Zpos p => inject_Z (n * 2 ^ Zpos p)
  | Zneg p => Qmake n (2 ^ p)%positive
  end.

Definition float_value (f : float) : ereal :=
  match Prim2SF f with
  | S754_nan => ENaN
  | S754_zero _ => EFin 0
  | S754_infinity true => ENegInf
  | S754_infinity false => EPosInf
  | S754_finite s m e => EFin (dyadic s m e)
  end.

Definition number_value (v : pyval) : option ereal :=
  match v with
  | VBool b => Some (EFin (inject_Z (Z.b2z b)))
  | VInt z => Some (EFin (inject_Z z))
  | VFloat f => Some (float_value f)
  | _ => None
  end.

Definition ereal_compare (a b : ereal) : option comparison :=
  match a, b with
  | ENaN, _ | _, ENaN => None
  | ENegInf, ENegInf => Some Eq
  | ENegInf, _ => Some Lt
  | _, ENegInf => Some Gt
  | EPosInf, EPosInf => Some Eq
  | EPosInf, _ => Some Gt
  | _, EPosInf => Some Lt
  | EFin p, EFin q => Some (Qcompare p q)
  end.

(** Ordering of two values as numbers; [None] when they are unordered
    (one is NaN) or one of them is not a number. *)
Definition num_compare (a b : pyval) : option comparison :=
  match number_value a, number_value b with
  | Some x, Some y => ereal_compare x y
  | _, _ => None
  end.

(** [a < b], [a <= b], [a > b], [a >= b] on numbers.  Every comparison
    with NaN is false.  (On operands that are not numbers Python 3 raises
    [TypeError]; every ordering comparison of the module is guarded by
    [is_number] or [isinstance(_, int)], so that case is not reached and
    the functions answer [false] there.) *)
Definition py_lt (a b : pyval) : bool :=
  match num_compare a b with Some Lt => true | _ => false end.

Definition py_le (a b : pyval) : bool :=
  match num_compare a b with Some Lt | Some Eq => true | _ => false end.

Definition py_gt (a b : pyval) : bool := py_lt b a.

Definition py_ge (a b : pyval) : bool := py_le b a.

(** ** Equality [a == b] *)
Definition is_numeric (v : pyval) : bool :=
  match v with VBool _ | VInt _ | VFloat _ => true | _ => false end.

Fixpoint py_eq (a b : pyval) {struct a} : bool :=
  match a, b with
  | VNone, VNone => true
  | VStr s, VStr t => String.eqb s t
  | VTuple xs, VTuple ys =>
      (fix go (xs ys : list pyval) {struct xs} : bool :=
         match xs, ys with
         | [], [] => true
         | x :: xs', y :: ys' => py_eq x y && go xs' ys'
         | _, _ => false
         end) xs ys
  | VList xs, VList ys =>
      (fix go (xs ys : list pyval) {struct xs} : bool :=
         match xs, ys with
         | [], [] => true
         | x :: xs', y :: ys' => py_eq x y && go xs' ys'
         | _, _ => false
         end) xs ys
  | _, _ =>
      if is_numeric a && is_numeric b
      then match num_compare a b with Some Eq => true | _ => false end
      else false
  end.

(** [x in xs] for a list [xs]: some element is [==] to [x]. *)
Definition py_in (x : pyval) (xs : list pyval) : bool :=
  existsb (fun y => py_eq x y) xs.

(** [len(set(xs))] for numbers: the number of pairwise [==]-distinct
    elements.  (Values carry no object identity here, so two NaN elements
    always count as distinct, as two separately created NaN objects do.) *)
Fixpoint distinct (xs : list pyval) : list pyval :=
  match xs with
  | [] => []
  | x :: xs' => if py_in x xs' then distinct xs' else x :: distinct xs'
  end.

Definition len_set (xs : list pyval) : nat := List.length (distinct xs).

(** [any(p(x) for x in xs)]. *)
Definition any {A} (p : A -> bool) (xs : list A) : bool := existsb p xs.

(** ** Truthiness *)
Definition truthy (v : pyval) : bool :=
  match v with
  | VNone => false
  | VBool b => b
  | VInt z => negb (z =? 0)
  | VFloat f => negb (PrimFloat.eqb f 0)
  | VStr s => negb (String.eqb s "")
  | VTuple l | VList l => match l with [] => false | _ => true end
  end.

(** ** Rendering: [str(v)] and ['{}'.format(v)] *)

Definition str_of_Z (z : Z) : string := NilZero.string_of_int (Z.to_int z).

Fixpoint repeat_string (s : string) (n : nat) : string :=
  match n with
  | O => ""
  | S n' => s ++ repeat_string s n'
  end.

Fixpoint join (sep : string) (xs : list string) : string :=
  match xs with
  | [] => ""
  | [x] => x
  | x :: xs' => x ++ sep ++ join sep xs'
  end.

(** *** Shortest round-trip digits of a positive finite binary64 value

    [repr] of a float is the shortest decimal string that rounds back to
    the same float, the closest to the exact value among those of that
    length.  The value is [m * 2^e]; the reals that round to it form an
    interval around it whose end points belong to it exactly when [m] is
    even (round-half-to-even). *)

(** Number of decimal digits of a positive integer. *)
Fixpoint count_digits (fuel : nat) (n : Z) : Z :=
  match fuel with
  | O => 1
  | S fuel' => if n <? 10 then 1 else 1 + count_digits fuel' (n / 10)
  end.

Definition ndigits (n : Z) : Z := count_digits (Z.to_nat (Z.log2 n)) n.

(** The [k] with [10^(k-1) <= a/b < 10^k], for positive [a] and [b]. *)
Definition decimal_exponent (a b : Z) : Z :=
  if b <=? a then ndigits (a / b) else 1 - ndigits ((b - 1) / a).

Record interval : Type := {
  iv_num : Z;        (* the value is iv_num / iv_den *)
  iv_den : Z;
  iv_below : Z;      (* lower end point (iv_num - iv_below) / iv_den *)
  iv_above : Z;      (* upper end point (iv_num + iv_above) / iv_den *)
  iv_closed : bool   (* end points included *)
}.

Definition rounding_interval (m : positive) (e : Z) : interval :=
  let up := 2 ^ Z.max e 0 in
  let down := 2 ^ Z.max (- e) 0 in
  let lower_gap_halved :=
    (Z.pos m =? 2 ^ 52) && (SpecFloat.emin prec emax <? e) in
  {| iv_num := 4 * Z.pos m * up;
     iv_den := 4 * down;
     iv_below := if lower_gap_halved then up else 2 * up;
     iv_above := 2 * up;
     iv_closed := Z.even (Z.pos m) |}.

(** The [n]-digit candidates for a value of decimal exponent [k]: the
    integers [c] next to [value * 10^(n-k)], standing for [c * 10^(k-n)]. *)
Definition candidate (iv : interval) (k n : Z) : option Z :=
  let p := 10 ^ Z.max (n - k) 0 in
  let a := iv_num iv * p in
  let b := iv_den iv * 10 ^ Z.max (k - n) 0 in
  let inside c :=
    if iv_closed iv
    then (a - iv_below iv * p <=? c * b) && (c * b <=? a + iv_above iv * p)
    else (a - iv_below iv * p <? c * b) && (c * b <? a + iv_above iv * p) in
  let lo := a / b in
  let hi := lo + 1 in
  let dlo := a - lo * b in
  let dhi := hi * b - a in
  match inside lo, inside hi with
  | true, true =>
      if dlo <? dhi then Some lo
      else if dhi <? dlo then Some hi
      else Some (if Z.even lo then lo else hi)
  | true, false => Some lo
  | false, true => Some hi
  | false, false => None
  end.

(** The correctly rounded [n]-digit integer, used at 17 digits, which
    always round-trip. *)
Definition nearest (iv : interval) (k n : Z) : Z :=
  let p := 10 ^ Z.max (n - k) 0 in
  let a := iv_num iv * p in
  let b := iv_den iv * 10 ^ Z.max (k - n) 0 in
  let lo := a / b in
  let dlo := a - lo * b in
  let dhi := (lo + 1) * b - a in
  if dlo <? dhi then lo
  else if dhi <? dlo then lo + 1
  else if Z.even lo then lo else lo + 1.

Fixpoint shortest (tries : nat) (iv : interval) (k n : Z) : Z * Z :=
  match tries with
  | O => (nearest iv k n, k - n)
  | S tries' =>
      match candidate iv k n with
      | Some c => (c, k - n)
      | None => shortest tries' iv k (n + 1)
      end
  end.

(** Drop trailing zeros of [c * 10^x]. *)
Fixpoint strip_zeros (fuel : nat) (c x : Z) : Z * Z :=
  match fuel with
  | O => (c, x)
  | S fuel' =>
      if (0 <? c) && (c mod 10 =? 0)
      then strip_zeros fuel' (c / 10) (x + 1)
      else (c, x)
  end.

(** Digits and decimal-point position: the value is
    [0.d1d2...dn * 10^decpt]. *)
Definition float_digits (m : positive) (e : Z) : string * Z :=
  let iv := rounding_interval m e in
  let k := decimal_exponent (iv_num iv) (iv_den iv) in
  let (c0, x0) := shortest 16 iv k 1 in
  let (c, x) := strip_zeros 17 c0 x0 in
  let ds := str_of_Z c in
  (ds, Z.of_nat (String.length ds) + x).

(** Layout of [repr]: exponent notation when [decpt <= -4] or
    [decpt > 16], positional notation with at least one digit after the
    point otherwise. *)
Definition layout (ds : string) (decpt : Z) : string :=
  let n := Z.of_nat (String.length ds) in
  if (decpt <=? -4) || (16 <? decpt) then
    let x := decpt - 1 in
    let mant :=
      match ds with
      | String d "" => String d ""
      | String d rest => String d ("." ++ rest)
      | "" => ""
      end in
    let xs := str_of_Z (Z.abs x) in
    mant ++ "e" ++ (if x <? 0 then "-" else "+")
         ++ (if Z.abs x <? 10 then "0" ++ xs else xs)
  else if decpt <=? 0 then
    "0." ++ repeat_string "0" (Z.to_nat (- decpt)) ++ ds
  else if n <=? decpt then
    ds ++ repeat_string "0" (Z.to_nat (decpt - n)) ++ ".0"
  else
    substring 0 (Z.to_nat decpt) ds ++ "."
      ++ substring (Z.to_nat decpt) (Z.to_nat (n - decpt)) ds.

Definition float_repr (f : float) : string :=
  match Prim2SF f with
  | S754_nan => "nan"
  | S754_infinity s => if s then "-inf" else "inf"
  | S754_zero s => if s then "-0.0" else "0.0"
  | S754_finite s m e =>
      let (ds, decpt) := float_digits m e in
      (if s then "-" else "") ++ layout ds decpt
  end.

(** [repr] of a string: single quotes unless the text has a single and no
    double quote; backslash, the quote and control characters escaped.
    (Strings are taken as ASCII text.) *)
Fixpoint contains_char (c : ascii) (s : string) : bool :=
  match s with
  | "" => false
  | String d s' => Ascii.eqb c d || contains_char c s'
  end.

Definition hex_digit (n : N) : ascii :=
  ascii_of_N (if (n <? 10)%N then 48 + n else 87 + n)%N.

Definition escape_char (quote c : ascii) : string :=
  let n := N_of_ascii c in
  if Ascii.eqb c "\"%char then "\\"
  else if Ascii.eqb c quote then String "\"%char (String c "")
  else if (n =? 10)%N then "\n"
  else if (n =? 13)%N then "\r"
  else if (n =? 9)%N then "\t"
  else if (n <? 32)%N || (n =? 127)%N
       then "\x" ++ String (hex_digit (n / 16)) (String (hex_digit (n mod 16)) "")
  else String c "".

Fixpoint escape (quote : ascii) (s : string) : string :=
  match s with
  | "" => ""
  | String c s' => escape_char quote c ++ escape quote s'
  end.

Definition dquote : ascii := ascii_of_N 34.

Definition str_repr (s : string) : string :=
  let quote :=
    if contains_char "'"%char s && negb (contains_char dquote s)
    then dquote else "'"%char in
  String quote (escape quote s ++ String quote "").

(** [repr(v)]. *)
Fixpoint py_repr (v : pyval) : string :=
  match v with
  | VNone => "None"
  | VBool b => if b then "True" else "False"
  | VInt z => str_of_Z z
  | VFloat f => float_repr f
  | VStr s => str_repr s
  | VTuple l =>
      match l with
      | [x] => "(" ++ py_repr x ++ ",)"
      | _ => "(" ++ join ", " (map py_repr l) ++ ")"
      end
  | VList l => "[" ++ join ", " (map py_repr l) ++ "]"
  end.

(** [str(v)], which is also ['{}'.format(v)]: a string renders as itself,
    everything else as its [repr]. *)
Definition py_str (v : pyval) : string :=
  match v with
  | VStr s => s
  | _ => py_repr v
  end.

(** ** Exceptions *)
Inductive exn : Type :=
| ValueError (msg : string)
| TypeError (msg : string)
| OverflowError (msg : string)
| NotImplementedError
| SoxError.

(** ** Subtraction [a - b]

    Integers subtract exactly, floats in binary64.  In a mixed operation
    the integer is first converted to the nearest float, and the
    conversion raises [OverflowError] when the integer is beyond the
    range of binary64. *)
Definition int_to_float (z : Z) : exn + float :=
  match binary_normalize prec emax z 0 false with
  | S754_infinity _ => inl (OverflowError "int too large to convert to float")
  | sf => inr (SF2Prim sf)
  end.

Definition as_int (v : pyval) : option Z :=
  match v with
  | VBool b => Some (Z.b2z b)
  | VInt z => Some z
  | _ => None
  end.

Definition as_float (v : pyval) : exn + float :=
  match v with
  | VFloat f => inr f
  | VBool b => int_to_float (Z.b2z b)
  | VInt z => int_to_float z
  | _ => inl (TypeError "unsupported operand type(s) for -")
  end.

Definition py_sub (a b : pyval) : exn + pyval :=
  match as_int a, as_int b with
  | Some x, Some y => inr (VInt (x - y))
  | _, _ =>
      match as_float a with
      | inl e => inl e
      | inr x =>
          match as_float b with
          | inl e => inl e
          | inr y => inr (VFloat (x - y)%float)
          end
      end
  end.

(** ** Indexing [v[i]] and [len(v)] of a tuple or list.
    (Out of range Python raises [IndexError]; the module indexes only
    tuples it has checked to have length 2.) *)
Definition getitem (v : pyval) (i : nat) : pyval :=
  match v with
  | VTuple l | VList l => nth i l VNone
  | _ => VNone
  end.

Definition len (v : pyval) : nat :=
  match v with
  | VTuple l | VList l => List.length l
  | VStr s => String.length s
  | _ => O
  end.

(** ** [sorted(xs, key=key)]

    Python's sort is stable and compares keys with [<].  On keys that
    [<] orders totally every stable sort returns the same list; insertion
    from the right is the one written here. *)
Section Sorted.
Variable key : pyval -> pyval.

Fixpoint insert_by (p : pyval) (l : list pyval) : list pyval :=
  match l with
  | [] => [p]
  | q :: l' =>
      if py_lt (key q) (key p) then q :: insert_by p l' else p :: q :: l'
  end.

Definition sorted (l : list pyval) : list pyval :=
  fold_right insert_by [] l.
End Sorted.

End Py.

Import Py.

(* ================================================================== *)
(** * The module [sox.transform] *)
(* ================================================================== *)

(** ** Object state, observable events, and the method monad *)

(** The attributes of a [Transformer] instance. *)
Record Transformer : Type := mkTransformer {
  input_filepath : string;
  output_filepath : string;
  input_format : list string;
  output_format : list string;
  effects : list string;
  effects_log : list string;
  globals : list string
}.

(** What a method does to the outside: log records, and invocations of
    the SoX executable through [core.sox]. *)
Inductive event : Type :=
| LogInfo (msg : string)
| LogWarning (msg : string)
| SoxCall (args : list string).

Record state : Type := mkState {
  self : Transformer;
  trace : list event
}.

(** A method either returns or raises; the state it leaves behind is
    there in both cases, since an exception does not roll back earlier
    assignments. *)
Inductive outcome (A : Type) : Type :=
| Returned (a : A)
| Raised (e : exn).
Arguments Returned {A} a.
Arguments Raised {A} e.

Definition M (A : Type) : Type := state -> state * outcome A.

Definition ret {A} (a : A) : M A := fun st => (st, Returned a).

Definition raise {A} (e : exn) : M A := fun st => (st, Raised e).

Definition bind {A B} (m : M A) (k : A -> M B) : M B :=
  fun st =>
    match m st with
    | (st', Returned a) => k a st'
    | (st', Raised e) => (st', Raised e)
    end.

Declare Scope py_scope.
Delimit Scope py_scope with py.
Notation "x <- m ;; k" := (bind m (fun x => k))
  (at level 100, m at next level, right associativity) : py_scope.
Notation "m ;; k" := (bind m (fun _ => k))
  (at level 100, right associativity) : py_scope.
Local Open Scope py_scope.

(** [if c: body] with no [else]. *)
Definition when (c : bool) (body : M unit) : M unit :=
  if c then body else ret tt.

(** An expression that may raise. *)
Definition evaluate {A} (r : exn + A) : M A :=
  match r with
  | inl e => raise e
  | inr a => ret a
  end.

Definition emit (e : event) : M unit :=
  fun st => (mkState (self st) (trace st ++ [e]), Returned tt).


Definition get : M Transformer := fun st => (st, Returned (self st)).

Definition put (t : Transformer) : M unit :=
  fun st => (mkState t (trace st), Returned tt).

(** [self.effects.extend(args)] *)
Definition effects_extend (args : list string) : M unit :=
  t <- get ;;
  put (mkTransformer (input_filepath t) (output_filepath t) (input_format t)
         (output_format t) (effects t ++ args) (effects_log t) (globals t)).

(** [self.effects_log.append(name)] *)
Definition effects_log_append (name : string) : M unit :=
  t <- get ;;
  put (mkTransformer (input_filepath t) (output_filepath t) (input_format t)
         (output_format t) (effects t) (effects_log t ++ [name]) (globals t)).

(** [self.output_format.extend(args)] *)
Definition output_format_extend (args : list string) : M unit :=
  t <- get ;;
  put (mkTransformer (input_filepath t) (output_filepath t) (input_format t)
         (output_format t ++ args) (effects t) (effects_log t) (globals t)).

(** [self.globals = args] *)
Definition assign_globals (args : list string) : M unit :=
  t <- get ;;
  put (mkTransformer (input_filepath t) (output_filepath t) (input_format t)
         (output_format t) (effects t) (effects_log t) args).

(** ** [sox.core.is_number] *)

(** Modelled from the spec: [is_number] is imported from [sox.core], which
    is not among the sources.  The spec fixes its meaning: a numeric
    constraint means that the value must be of a numeric type, and a
    non-numeric input is itself a validation failure.  Python's numeric
    types here are [bool], [int] and [float]. *)
Definition is_number (v : pyval) : bool := is_numeric v.

Definition is_None (v : pyval) : bool :=
  match v with VNone => true | _ => false end.

(** Iterating a list or a tuple. *)
Definition items (v : pyval) : list pyval :=
  match v with
  | VTuple l | VList l => l
  | _ => []
  end.

Definition newline : string := String (ascii_of_N 10) "".

(** ** Module constants *)

Definition VERBOSITY_VALS : list pyval :=
  [VInt 0; VInt 1; VInt 2; VInt 3; VInt 4].

(** ** [Transformer.set_globals] *)

Definition set_globals
  (dither guard multithread replay_gain verbosity : pyval) : M unit :=
  when (negb (isinstance_bool dither))
    (raise (ValueError "dither must be a boolean.")) ;;
  when (negb (isinstance_bool guard))
    (raise (ValueError "guard must be a boolean.")) ;;
  when (negb (isinstance_bool multithread))
    (raise (ValueError "multithread must be a boolean.")) ;;
  when (negb (isinstance_bool replay_gain))
    (raise (ValueError "replay_gain must be a boolean.")) ;;
  when (negb (py_in verbosity VERBOSITY_VALS))
    (raise (ValueError ("Invalid value for VERBOSITY. Must be one "
                          ++ py_str (VList VERBOSITY_VALS)))) ;;
  let global_args := [] in
  let global_args :=
    if negb (truthy dither) then global_args ++ ["-D"] else global_args in
  let global_args :=
    if truthy guard then global_args ++ ["-G"] else global_args in
  let global_args :=
    if truthy multithread then global_args ++ ["--multi-threaded"]
    else global_args in
  let global_args :=
    if truthy replay_gain then (global_args ++ ["--replay-gain"]) ++ ["track"]
    else global_args in
  let global_args := global_args ++ [("-V" ++ py_str verbosity)%string] in
  assign_globals global_args.

(** The defaults of [set_globals]. *)
Definition set_globals_default : M unit :=
  set_globals (VBool false) (VBool false) (VBool false) (VBool false) (VInt 2).

(** ** Construction and [Transformer.build] *)

Section Collaborators.

(** [file_info.validate_input_file], [file_info.validate_output_file]
    and [core.sox] live in modules that are not among the sources: the
    validators either pass or raise, the engine answers [True] or
    [False] for an argument list. *)
Variable validate_input_file : string -> option exn.
Variable validate_output_file : string -> option exn.
Variable sox : list string -> bool.

Definition call_sox (args : list string) : M bool :=
  emit (SoxCall args) ;;
  ret (sox args).

(** [Transformer.__init__]: the object under construction starts with
    no attribute the method has not assigned yet. *)
Definition init (input_filepath output_filepath : string) : M unit :=
  match validate_input_file input_filepath with
  | Some e => raise e
  | None =>
      match validate_output_file output_filepath with
      | Some e => raise e
      | None =>
          put (mkTransformer input_filepath output_filepath [] [] [] [] []) ;;
          set_globals_default
      end
  end.

Definition build : M bool :=
  t <- get ;;
  let args := [] in
  let args := args ++ globals t in
  let args := args ++ input_format t in
  let args := args ++ [input_filepath t] in
  let args := args ++ output_format t in
  let args := args ++ [output_filepath t] in
  let args := args ++ effects t in
  status <- call_sox args ;;
  if negb status then raise SoxError
  else
    emit (LogInfo ("Created " ++ output_filepath t ++ " with effects: "
                     ++ join " " (effects_log t))) ;;
    ret true.

End Collaborators.

(** ** The effects that are not implemented

    Each of these methods has the body [raise NotImplementedError]. *)
Inductive stub_name : Type :=
| allpass | band | bandpass | bandreject | bass | bend | biquad | channels
| chorus | contrast | dcshift | deemph | delay | dither | downsample
| earwax | echo | echos | equalizer | fir | flanger | highpass | lowpass
| hilbert | mcompand | noisered | oops | overdrive | phaser | pitch | remix
| repeat | reverb | reverse | sinc | speed | splice | swap | stretch
| tempo | treble | tremolo | upsample | vad | vol.

Definition stub (name : stub_name) : M unit := raise NotImplementedError.

(** ** [Transformer.rate] *)

Definition rate (samplerate quality : pyval) : M unit :=
  let quality_vals := [VStr "q"; VStr "l"; VStr "m"; VStr "h"; VStr "v"] in
  when (negb (is_number samplerate) || py_le samplerate (VInt 0))
    (raise (ValueError "Samplerate must be a positive number.")) ;;
  when (negb (py_in quality quality_vals))
    (raise (ValueError ("Quality must be one of "
                          ++ join " " (map py_str quality_vals) ++ "."))) ;;
  let effect_args :=
    ["rate"; ("-" ++ py_str quality)%string; py_str samplerate] in
  effects_extend effect_args ;;
  effects_log_append "rate".

(** The default of [quality]. *)
Definition rate_quality_default : pyval := VStr "h".

(** ** [Transformer.compand] *)

Definition compand
  (attack_time decay_time soft_knee_db tf_points : pyval) : M unit :=
  when (negb (is_number attack_time) || py_le attack_time (VInt 0))
    (raise (ValueError "attack_time must be a positive number.")) ;;
  when (negb (is_number decay_time) || py_le decay_time (VInt 0))
    (raise (ValueError "decay_time must be a positive number.")) ;;
  when (py_gt attack_time decay_time)
    (emit (LogWarning
       ("attack_time is larger than decay_time." ++ newline
        ++ "For most situations, attack_time should be shorter than "
        ++ "decay time because the human ear is more sensitive to sudden "
        ++ "loud music than sudden soft music."))) ;;
  when (negb (is_number soft_knee_db || is_None soft_knee_db))
    (raise (ValueError "soft_knee_db must be a number or None.")) ;;
  when (negb (isinstance_list tf_points))
    (raise (TypeError "tf_points must be a list.")) ;;
  when (len tf_points =? 0)%nat
    (raise (ValueError "tf_points must have at least one point.")) ;;
  when (any (fun pair => negb (isinstance_tuple pair)) (items tf_points))
    (raise (ValueError "elements of tf_points must be pairs")) ;;
  when (any (fun pair => negb (len pair =? 2)%nat) (items tf_points))
    (raise (ValueError "Tuples in tf_points must be length 2")) ;;
  when (any (fun p => negb (is_number (getitem p 0) && is_number (getitem p 1)))
            (items tf_points))
    (raise (ValueError "Tuples in tf_points must be pairs of numbers.")) ;;
  when (any (fun p => py_gt (getitem p 0) (VInt 0) || py_gt (getitem p 1) (VInt 0))
            (items tf_points))
    (raise (ValueError "Tuple values in tf_points must be <= 0 (dB).")) ;;
  when (len_set (map (fun p => getitem p 0) (items tf_points)) <? len tf_points)%nat
    (raise (ValueError "Found duplicate x-value in tf_points.")) ;;
  let tf_points := sorted (fun tf_points => getitem tf_points 0) (items tf_points) in
  let transfer_list :=
    flat_map (fun point => [py_str (getitem point 0); py_str (getitem point 1)])
             tf_points in
  let effect_args :=
    ["compand"; (py_str attack_time ++ "," ++ py_str decay_time)%string] in
  let effect_args :=
    if negb (is_None soft_knee_db)
    then effect_args
           ++ [(py_str soft_knee_db ++ ":" ++ join "," transfer_list)%string]
    else effect_args ++ [join "," transfer_list] in
  effects_extend effect_args ;;
  effects_log_append "compand".

(** The defaults of [compand]. *)
Definition compand_attack_time_default : pyval := VFloat 0.3.
Definition compand_decay_time_default : pyval := VFloat 0.8.
Definition compand_soft_knee_db_default : pyval := VFloat 6.0.
Definition compand_tf_points_default : pyval :=
  VList [VTuple [VInt (-70); VInt (-70)];
         VTuple [VInt (-60); VInt (-20)];
         VTuple [VInt 0; VInt 0]].

(** ** [Transformer.convert] *)

Definition convert (samplerate channels bitdepth : pyval) : M unit :=
  let bitdepths := [VInt 8; VInt 16; VInt 24; VInt 32; VInt 64] in
  when (negb (is_None bitdepth))
    (when (negb (py_in bitdepth bitdepths))
       (raise (ValueError ("bitdepth must be one of "
                             ++ py_str (VList bitdepths) ++ "."))) ;;
     output_format_extend ["-b"; py_str bitdepth]) ;;
  when (negb (is_None channels))
    (when (negb (isinstance_int channels) || py_le channels (VInt 0))
       (raise (ValueError "channels must be a positive integer.")) ;;
     output_format_extend ["-c"; py_str channels]) ;;
  when (negb (is_None samplerate))
    (when (negb (is_number samplerate) || py_le samplerate (VInt 0))
       (raise (ValueError "samplerate must be a positive number.")) ;;
     rate samplerate rate_quality_default).

(** ** [Transformer.fade] *)

Definition fade (fade_in_len fade_out_len fade_shape : pyval) : M unit :=
  let fade_shapes := [VStr "q"; VStr "h"; VStr "t"; VStr "l"; VStr "p"] in
  when (negb (py_in fade_shape fade_shapes))
    (raise (ValueError ("Fade shape must be one of "
                          ++ join " " (map py_str fade_shapes)))) ;;
  when (negb (is_number fade_in_len) || py_lt fade_in_len (VInt 0))
    (raise (ValueError "fade_in_len must be a nonnegative number.")) ;;
  when (negb (is_number fade_out_len) || py_lt fade_out_len (VInt 0))
    (raise (ValueError "fade_out_len must be a nonnegative number.")) ;;
  let effect_args := [] in
  let effect_args :=
    if py_gt fade_in_len (VInt 0)
    then effect_args ++ ["fade"; py_str fade_shape; py_str fade_in_len]
    else effect_args in
  let effect_args :=
    if py_gt fade_out_len (VInt 0)
    then effect_args
           ++ ["reverse"; "fade"; py_str fade_shape; py_str fade_out_len;
               "reverse"]
    else effect_args in
  when (0 <? List.length effect_args)%nat
    (effects_extend effect_args ;;
     effects_log_append "fade").

(** ** [Transformer.gain] *)

Definition gain (gain_db normalize limiter balance : pyval) : M unit :=
  when (negb (is_number gain_db))
    (raise (ValueError "gain_db must be a number.")) ;;
  when (negb (isinstance_bool normalize))
    (raise (ValueError "normalize must be a boolean.")) ;;
  when (negb (isinstance_bool limiter))
    (raise (ValueError "limiter must be a boolean.")) ;;
  when (negb (py_in balance [VNone; VStr "e"; VStr "B"; VStr "b"]))
    (raise (ValueError "balance must be one of None, 'e', 'B', or 'b'.")) ;;
  let effect_args := ["gain"] in
  let effect_args :=
    if negb (is_None balance)
    then effect_args ++ [("-" ++ py_str balance)%string]
    else effect_args in
  let effect_args :=
    if truthy normalize then effect_args ++ ["-n"] else effect_args in
  let effect_args :=
    if truthy limiter then effect_args ++ ["-l"] else effect_args in
  let effect_args := effect_args ++ [py_str gain_db] in
  effects_extend effect_args ;;
  effects_log_append "gain".

(** ** [Transformer.loudness] *)

Definition loudness (gain_db reference_level : pyval) : M unit :=
  when (negb (is_number gain_db))
    (raise (ValueError "gain_db must be a number.")) ;;
  when (negb (is_number reference_level))
    (raise (ValueError "reference_level must be a number")) ;;
  when (py_gt reference_level (VInt 75) || py_lt reference_level (VInt 50))
    (raise (ValueError "reference_level must be between 50 and 75")) ;;
  let effect_args := ["loudness"; py_str gain_db; py_str reference_level] in
  effects_extend effect_args ;;
  effects_log_append "loudness".

(** ** [Transformer.norm] *)

Definition norm (db_level : pyval) : M unit :=
  when (negb (is_number db_level))
    (raise (ValueError "db_level must be a number.")) ;;
  let effect_args := ["norm"; py_str db_level] in
  effects_extend effect_args ;;
  effects_log_append "norm".

(** ** [Transformer.pad] *)

Definition pad (start_duration end_duration : pyval) : M unit :=
  when (negb (is_number start_duration) || py_lt start_duration (VInt 0))
    (raise (ValueError "Start duration must be a positive number.")) ;;
  when (negb (is_number end_duration) || py_lt end_duration (VInt 0))
    (raise (ValueError "End duration must be positive.")) ;;
  let effect_args := ["pad"; py_str start_duration; py_str end_duration] in
  effects_extend effect_args ;;
  effects_log_append "pad".

(** ** [Transformer.silence] *)

Definition silence
  (location silence_threshold min_silence_duration buffer_around_silence : pyval)
  : M unit :=
  when (negb (py_in location [VInt (-1); VInt 0; VInt 1]))
    (raise (ValueError "location must be one of -1, 0, 1.")) ;;
  (if negb (is_number silence_threshold) || py_lt silence_threshold (VInt 0)
   then raise (ValueError "silence_threshold must be a number between 0 and 100")
   else if py_ge silence_threshold (VInt 100)
   then raise (ValueError "silence_threshold must be a number between 0 and 100")
   else ret tt) ;;
  when (negb (is_number min_silence_duration)
        || py_le min_silence_duration (VInt 0))
    (raise (ValueError "min_silence_duration must be a positive number.")) ;;
  when (negb (isinstance_bool buffer_around_silence))
    (raise (ValueError "buffer_around_silence must be a boolean.")) ;;
  let effect_args := [] in
  let effect_args :=
    if py_eq location (VInt (-1)) then effect_args ++ ["reverse"]
    else effect_args in
  let effect_args :=
    if truthy buffer_around_silence then effect_args ++ ["silence"; "-l"]
    else effect_args ++ ["silence"] in
  let effect_args :=
    effect_args
      ++ ["1"; py_str min_silence_duration;
          (py_str silence_threshold ++ "%")%string] in
  let effect_args :=
    if py_eq location (VInt 0)
    then effect_args
           ++ ["-1"; py_str min_silence_duration;
               (py_str silence_threshold ++ "%")%string]
    else effect_args in
  let effect_args :=
    if py_eq location (VInt (-1)) then effect_args ++ ["reverse"]
    else effect_args in
  effects_extend effect_args ;;
  effects_log_append "silence".

(** ** [Transformer.trim] *)

Definition trim (start_time end_time : pyval) : M unit :=
  when (negb (is_number start_time) || py_lt start_time (VInt 0))
    (raise (ValueError "start_time must be a positive number.")) ;;
  when (negb (is_number end_time) || py_lt end_time (VInt 0))
    (raise (ValueError "end_time must be a positive number.")) ;;
  when (py_ge start_time end_time)
    (raise (ValueError "start_time must be smaller than end_time.")) ;;
  duration <- evaluate (py_sub end_time start_time) ;;
  let effect_args := ["trim"; py_str start_time; py_str duration] in
  effects_extend effect_args ;;
  effects_log_append "trim".

(** ** Every method call

    The public methods of the class, as data, so that statements can
    range over arbitrary calls and call sequences. *)
Inductive call : Type :=
| Call_set_globals (dither guard multithread replay_gain verbosity : pyval)
| Call_build
| Call_compand (attack_time decay_time soft_knee_db tf_points : pyval)
| Call_convert (samplerate channels bitdepth : pyval)
| Call_fade (fade_in_len fade_out_len fade_shape : pyval)
| Call_gain (gain_db normalize limiter balance : pyval)
| Call_loudness (gain_db reference_level : pyval)
| Call_norm (db_level : pyval)
| Call_pad (start_duration end_duration : pyval)
| Call_rate (samplerate quality : pyval)
| Call_silence
    (location silence_threshold min_silence_duration buffer_around_silence : pyval)
| Call_trim (start_time end_time : pyval)
| Call_stub (name : stub_name).

Section Calls.
Variable sox : list string -> bool.

Definition invoke (c : call) : M unit :=
  match c with
  | Call_set_globals d g m r v => set_globals d g m r v
  | Call_build => _ <- build sox ;; ret tt
  | Call_compand a d k tf => compand a d k tf
  | Call_convert s c b => convert s c b
  | Call_fade i o sh => fade i o sh
  | Call_gain g n l b => gain g n l b
  | Call_loudness g r => loudness g r
  | Call_norm d => norm d
  | Call_pad s e => pad s e
  | Call_rate s q => rate s q
  | Call_silence l t m b => silence l t m b
  | Call_trim s e => trim s e
  | Call_stub n => stub n
  end.

(** A caller that makes the calls one after the other and carries on
    after an exception. *)
Fixpoint invoke_all (cs : list call) (st : state) : state :=
  match cs with
  | [] => st
  | c :: cs' => invoke_all cs' (fst (invoke c st))
  end.
End Calls.

(** The calls of [core.sox] recorded in a trace. *)
Fixpoint sox_calls (tr : list event) : list (list string) :=
  match tr with
  | [] => []
  | SoxCall args :: tr' => args :: sox_calls tr'
  | _ :: tr' => sox_calls tr'
  end.

(** The spec's error kinds: [InvalidParameter] is what a validator
    raises ([ValueError], or [TypeError] for a wrongly typed argument). *)
Definition InvalidParameter (e : exn) : Prop :=
  match e with
  | ValueError _ | TypeError _ => True
  | _ => False
  end.

(** Updates of single attributes, for stating results. *)
Definition with_effects (t : Transformer) (tokens : list string) (name : string)
  : Transformer :=
  mkTransformer (input_filepath t) (output_filepath t) (input_format t)
    (output_format t) (effects t ++ tokens) (effects_log t ++ [name]) (globals t).

Definition with_globals (t : Transformer) (tokens : list string) : Transformer :=
  mkTransformer (input_filepath t) (output_filepath t) (input_format t)
    (output_format t) (effects t) (effects_log t) tokens.

Definition with_output_format (t : Transformer) (tokens : list string)
  : Transformer :=
  mkTransformer (input_filepath t) (output_filepath t) (input_format t)
    (output_format t ++ tokens) (effects t) (effects_log t) (globals t).

(** [xs] is a prefix of [ys]. *)
Definition prefix (xs ys : list string) : Prop := exists zs, ys = xs ++ zs.

(** Values no two of which are [==]. *)
Fixpoint all_distinct (xs : list pyval) : bool :=
  match xs with
  | [] => true
  | x :: xs' => negb (py_in x xs') && all_distinct xs'
  end.

(** A point [(x, y)] as the tuple the method receives. *)
Definition point (p : pyval * pyval) : pyval := VTuple [fst p; snd p].

(** The token sequence the spec gives for [build]. *)
Definition assembled (t : Transformer) : list string :=
  globals t ++ input_format t ++ [input_filepath t]
    ++ output_format t ++ [output_filepath t] ++ effects t.

(** A builder right after construction, for concrete scenarios. *)
Definition fresh : state :=
  mkState (mkTransformer "in.wav" "out.wav" [] [] [] [] ["-D"; "-V2"]) [].

(* ================================================================== *)
(** * Properties *)
(* ================================================================== *)


(** ** Numeric order *)

Lemma ereal_compare_antisym (a b : ereal) :
  ereal_compare b a = option_map CompOpp (ereal_compare a b).
Proof.
  destruct a, b; simpl; try reflexivity.
  now rewrite <- Qcompare_antisym.
Qed.

Lemma num_compare_antisym (a b : pyval) :
  num_compare b a = option_map CompOpp (num_compare a b).
Proof.
  unfold num_compare.
  destruct (number_value a), (number_value b); simpl; try reflexivity.
  apply ereal_compare_antisym.
Qed.

Lemma py_lt_not_ge (a b : pyval) : py_lt a b = true -> py_ge a b = false.
Proof.
  unfold py_ge, py_le, py_lt. rewrite (num_compare_antisym a b).
  destruct (num_compare a b) as [[]|]; simpl; congruence.
Qed.

Lemma py_le_not_gt (a b : pyval) : py_le a b = true -> py_gt a b = false.
Proof.
  unfold py_gt, py_le, py_lt. rewrite (num_compare_antisym a b).
  destruct (num_compare a b) as [[]|]; simpl; congruence.
Qed.

Lemma py_gt_not_le (a b : pyval) : py_gt a b = true -> py_le a b = false.
Proof.
  unfold py_gt, py_le, py_lt. rewrite (num_compare_antisym a b).
  destruct (num_compare a b) as [[]|]; simpl; congruence.
Qed.

Lemma py_ge_not_lt (a b : pyval) : py_ge a b = true -> py_lt a b = false.
Proof.
  unfold py_ge, py_le, py_lt. rewrite (num_compare_antisym a b).
  destruct (num_compare a b) as [[]|]; simpl; congruence.
Qed.

Lemma py_eq_number (a : pyval) (z : Z) :
  py_eq a (VInt z) = true ->
  is_number a = true /\ num_compare a (VInt z) = Some Eq.
Proof.
  destruct a; cbn [py_eq is_numeric is_number andb]; try discriminate;
    intros H; split; try reflexivity;
    match type of H with
    | context [num_compare ?x ?y] =>
        destruct (num_compare x y) as [[]|]; try discriminate; reflexivity
    end.
Qed.

Lemma py_eq_not_lt (a : pyval) (z : Z) :
  py_eq a (VInt z) = true -> py_lt a (VInt z) = false.
Proof.
  intros H. apply py_eq_number in H as [_ H]. unfold py_lt. now rewrite H.
Qed.

Lemma py_eq_not_gt (a : pyval) (z : Z) :
  py_eq a (VInt z) = true -> py_gt a (VInt z) = false.
Proof.
  intros H. apply py_eq_number in H as [_ H].
  unfold py_gt, py_lt. rewrite (num_compare_antisym a), H. reflexivity.
Qed.

(** ** Running a method body *)

Arguments py_lt : simpl never.
Arguments py_le : simpl never.
Arguments py_gt : simpl never.
Arguments py_ge : simpl never.
Arguments py_eq : simpl never.
Arguments py_in : simpl never.
Arguments py_str : simpl never.
Arguments py_sub : simpl never.
Arguments is_number : simpl never.

Lemma bind_when_false A (body : M unit) (k : unit -> M A) (st : state) :
  bind (when false body) k st = k tt st.
Proof. reflexivity. Qed.

Lemma bind_when_raise A (e : exn) (k : unit -> M A) (st : state) :
  bind (when true (raise e)) k st = (st, Raised e).
Proof. reflexivity. Qed.

(** Unfolds the monad once the guards of a body have been rewritten to
    [true] or [false]. *)
Ltac run :=
  cbv beta iota zeta delta
    [bind ret raise when evaluate emit get put effects_extend
     effects_log_append output_format_extend assign_globals call_sox
     negb orb andb with_effects with_globals with_output_format];
  cbn [self trace fst snd input_filepath output_filepath input_format
       output_format effects effects_log globals].

Lemma sox_calls_app (tr tr' : list event) :
  sox_calls (tr ++ tr') = sox_calls tr ++ sox_calls tr'.
Proof.
  induction tr as [|[] tr IH]; simpl; now rewrite ?IH.
Qed.

(** ** The rendering of numbers

    The values the scenarios of the spec use, and a few whose shortest
    representation is long, in exponent notation, or subnormal. *)

Example float_repr_short :
  map float_repr [0.1; 0.3; 0.8; 6.0; 99.999; 2.0; 100.0; 44100.0]%float
  = ["0.1"; "0.3"; "0.8"; "6.0"; "99.999"; "2.0"; "100.0"; "44100.0"].
Proof. vm_compute. reflexivity. Qed.

Example float_repr_long :
  map float_repr [0.3 - 0.1; 0.1 + 0.2; 1e16; 1e15; 1e-5; 0.0001; 1e23;
                  5e-324; 1.7976931348623157e308; -70.0; infinity; nan]%float
  = ["0.19999999999999998"; "0.30000000000000004"; "1e+16";
     "1000000000000000.0"; "1e-05"; "0.0001"; "1e+23"; "5e-324";
     "1.7976931348623157e+308"; "-70.0"; "inf"; "nan"].
Proof. vm_compute. reflexivity. Qed.

Example py_str_values :
  map py_str [VNone; VBool true; VInt (-70); VFloat 0.5; VStr "q";
              VList [VInt 8; VInt 16]; VTuple [VInt 0; VInt 0]]
  = ["None"; "True"; "-70"; "0.5"; "q"; "[8, 16]"; "(0, 0)"].
Proof. vm_compute. reflexivity. Qed.

Example mixed_comparisons :
  py_eq (VInt 1) (VFloat 1.0) = true
  /\ py_eq (VBool true) (VInt 1) = true
  /\ py_eq (VFloat nan) (VFloat nan) = false
  /\ py_lt (VFloat nan) (VInt 0) = false
  /\ py_ge (VFloat nan) (VInt 100) = false
  /\ py_lt (VFloat 9007199254740992.0) (VInt 9007199254740993) = true
  /\ py_lt (VInt (10 ^ 400)) (VFloat infinity) = true.
Proof. repeat split; vm_compute; reflexivity. Qed.

(** ** Construction *)

(** When both paths pass their checks, a new builder has empty format,
    effect and log sequences and the default global tokens. *)
Lemma init_fresh (validate_input_file validate_output_file : string -> option exn)
    (input output : string) (st : state) :
  validate_input_file input = None ->
  validate_output_file output = None ->
  init validate_input_file validate_output_file input output st
  = (mkState (mkTransformer input output [] [] [] [] ["-D"; "-V2"]) (trace st),
     Returned tt).
Proof.
  intros Hin Hout. unfold init. now rewrite Hin, Hout.
Qed.

(** ** [set_globals] *)

(** C3: for booleans [d], [g], [m], [r] and a verbosity [v] in 0..4,
    [set_globals] leaves as global tokens, in this order, [-D] iff [d] is
    false, [-G] iff [g], [--multi-threaded] iff [m], [--replay-gain track]
    iff [r], and last [-V<v>]; with the defaults the tokens are
    [-D; -V2]; the new sequence replaces the old one whatever it was, and
    no other attribute changes. *)
Theorem set_globals_tokens (d g m r : bool) (v : Z) (st : state) :
  0 <= v <= 4 ->
  set_globals (VBool d) (VBool g) (VBool m) (VBool r) (VInt v) st
  = (mkState
       (with_globals (self st)
          ((if d then [] else ["-D"])
             ++ (if g then ["-G"] else [])
             ++ (if m then ["--multi-threaded"] else [])
             ++ (if r then ["--replay-gain"; "track"] else [])
             ++ [nth (Z.to_nat v) ["-V0"; "-V1"; "-V2"; "-V3"; "-V4"] ""]))
       (trace st),
     Returned tt)
  /\ set_globals_default st
     = (mkState (with_globals (self st) ["-D"; "-V2"]) (trace st), Returned tt).
Proof.
  intros Hv. split; [|reflexivity].
  assert (v = 0 \/ v = 1 \/ v = 2 \/ v = 3 \/ v = 4) as Hcases by lia.
  destruct Hcases as [-> | [-> | [-> | [-> | ->]]]];
    destruct d, g, m, r; reflexivity.
Qed.

Lemma set_globals_tokens_witness :
  set_globals (VBool true) (VBool true) (VBool false) (VBool true) (VInt 3) fresh
  = (mkState
       (with_globals (self fresh) ["-G"; "--replay-gain"; "track"; "-V3"])
       (trace fresh),
     Returned tt)
  /\ set_globals_default fresh
     = (mkState (with_globals (self fresh) ["-D"; "-V2"]) (trace fresh),
        Returned tt).
Proof.
  apply (@set_globals_tokens true true false true 3 fresh). lia.
Defined.

(** ** [build] *)

(** C2: [build] hands the engine the sequence globals, input format,
    input path, output format, output path, effects, in that order, once;
    it returns [True] when the engine answers [True] and raises
    [SoxError] when it answers [False]; in both cases the builder is left
    as it was and the engine has been called exactly one more time. *)
Theorem build_calls_engine_once (sox : list string -> bool) (st : state) :
  build sox st
  = (if sox (assembled (self st))
     then (mkState (self st)
             ((trace st ++ [SoxCall (assembled (self st))])
                ++ [LogInfo ("Created " ++ output_filepath (self st)
                               ++ " with effects: "
                               ++ join " " (effects_log (self st)))]),
           Returned true)
     else (mkState (self st) (trace st ++ [SoxCall (assembled (self st))]),
           Raised SoxError))
  /\ self (fst (build sox st)) = self st
  /\ sox_calls (trace (fst (build sox st)))
     = sox_calls (trace st) ++ [assembled (self st)].
Proof.
  assert (Hargs :
    ((((([] ++ globals (self st)) ++ input_format (self st))
         ++ [input_filepath (self st)]) ++ output_format (self st))
       ++ [output_filepath (self st)]) ++ effects (self st)
    = assembled (self st)).
  { unfold assembled. now rewrite <- !app_assoc. }
  assert (Hrun :
    build sox st
    = (if sox (assembled (self st))
       then (mkState (self st)
               ((trace st ++ [SoxCall (assembled (self st))])
                  ++ [LogInfo ("Created " ++ output_filepath (self st)
                                 ++ " with effects: "
                                 ++ join " " (effects_log (self st)))]),
             Returned true)
       else (mkState (self st) (trace st ++ [SoxCall (assembled (self st))]),
             Raised SoxError))).
  { unfold build. run. rewrite Hargs.
    destruct (sox (assembled (self st))); reflexivity. }
  split; [exact Hrun|].
  rewrite Hrun.
  destruct (sox (assembled (self st))); cbn [fst self trace]; split;
    try reflexivity; rewrite !sox_calls_app; cbn [sox_calls];
    now rewrite ?app_nil_r.
Qed.

(** ** [convert] and [rate] *)




(** ** [fade] *)

(** C8: for a shape among q, h, t, l, p and both lengths equal to zero,
    [fade] returns leaving the whole state, effects and log included, as
    it was. *)
Theorem fade_zero_lengths_noop (fade_in_len fade_out_len fade_shape : pyval)
    (st : state) :
  py_in fade_shape [VStr "q"; VStr "h"; VStr "t"; VStr "l"; VStr "p"] = true ->
  py_eq fade_in_len (VInt 0) = true ->
  py_eq fade_out_len (VInt 0) = true ->
  fade fade_in_len fade_out_len fade_shape st = (st, Returned tt).
Proof.
  intros Hshape Hin Hout. unfold fade.
  rewrite Hshape.
  rewrite (proj1 (py_eq_number _ _ Hin)), (proj1 (py_eq_number _ _ Hout)).
  rewrite (py_eq_not_lt _ _ Hin), (py_eq_not_lt _ _ Hout).
  rewrite (py_eq_not_gt _ _ Hin), (py_eq_not_gt _ _ Hout).
  reflexivity.
Qed.

Lemma fade_zero_lengths_noop_witness :
  fade (VFloat 0) (VInt 0) (VStr "t") fresh = (fresh, Returned tt).
Proof.
  apply (@fade_zero_lengths_noop (VFloat 0) (VInt 0) (VStr "t") fresh);
    reflexivity.
Defined.

(** ** [trim] *)

(** C5 (as amended): for numbers [s >= 0] and [e >= 0] with [s < e] whose
    difference [e - s] Python forms, [trim] appends [trim <s> <e - s>] to
    the effects and [trim] to the log; [trim(1.0, 3.0)] on a new builder
    leaves effects [trim 1.0 2.0] and log [trim]; and whenever [s >= e],
    equality included, [trim] raises [ValueError] and changes nothing. *)
Theorem trim_tokens :
  (forall (s e d : pyval) (st : state),
      is_number s = true -> is_number e = true ->
      py_ge s (VInt 0) = true -> py_ge e (VInt 0) = true ->
      py_lt s e = true ->
      py_sub e s = inr d ->
      trim s e st
      = (mkState (with_effects (self st) ["trim"; py_str s; py_str d] "trim")
           (trace st),
         Returned tt))
  /\ (effects (self (fst (trim (VFloat 1.0) (VFloat 3.0) fresh)))
        = ["trim"; "1.0"; "2.0"]
      /\ effects_log (self (fst (trim (VFloat 1.0) (VFloat 3.0) fresh)))
        = ["trim"]
      /\ snd (trim (VFloat 1.0) (VFloat 3.0) fresh) = Returned tt)
  /\ (forall (s e : pyval) (st : state),
      py_ge s e = true ->
      exists msg, trim s e st = (st, Raised (ValueError msg))).
Proof.
  split; [|split].
  - intros s e d st Hs He Hs0 He0 Hlt Hsub. unfold trim.
    rewrite Hs, He, (py_ge_not_lt _ _ Hs0), (py_ge_not_lt _ _ He0).
    rewrite (py_lt_not_ge _ _ Hlt), Hsub. reflexivity.
  - repeat split; vm_compute; reflexivity.
  - intros s e st Hge. unfold trim.
    destruct (negb (is_number s) || py_lt s (VInt 0)); [eexists; reflexivity|].
    destruct (negb (is_number e) || py_lt e (VInt 0)); [eexists; reflexivity|].
    rewrite Hge. eexists; reflexivity.
Qed.

Lemma trim_tokens_witness :
  trim (VInt 2) (VFloat 4.5) fresh
  = (mkState (with_effects (self fresh) ["trim"; "2"; "2.5"] "trim") (trace fresh),
     Returned tt)
  /\ exists msg, trim (VInt 3) (VInt 3) fresh = (fresh, Raised (ValueError msg)).
Proof.
  split.
  - apply (proj1 trim_tokens (VInt 2) (VFloat 4.5) (VFloat 2.5) fresh);
      reflexivity.
  - apply (proj2 (proj2 trim_tokens) (VInt 3) (VInt 3) fresh). reflexivity.
Defined.

(** C5 as stated fails: 1.0 and 10^400 are numbers, both [>= 0], and
    [1.0 < 10^400], yet [trim] appends nothing: forming the difference of
    an [int] beyond the float range and a [float] raises
    [OverflowError]. *)
Lemma trim_overflow_counterexample :
  is_number (VFloat 1.0) = true
  /\ is_number (VInt (10 ^ 400)) = true
  /\ py_ge (VFloat 1.0) (VInt 0) = true
  /\ py_ge (VInt (10 ^ 400)) (VInt 0) = true
  /\ py_lt (VFloat 1.0) (VInt (10 ^ 400)) = true
  /\ trim (VFloat 1.0) (VInt (10 ^ 400)) fresh
     = (fresh, Raised (OverflowError "int too large to convert to float")).
Proof.
  repeat split; vm_compute; reflexivity.
Qed.

(** ** [silence] *)

(** The tokens of a [silence] call. *)
Definition silence_args (loc t m : pyval) (b : bool) : list string :=
  (if py_eq loc (VInt (-1)) then ["reverse"] else [])
    ++ (if b then ["silence"; "-l"] else ["silence"])
    ++ ["1"; py_str m; (py_str t ++ "%")%string]
    ++ (if py_eq loc (VInt 0)
        then ["-1"; py_str m; (py_str t ++ "%")%string] else [])
    ++ (if py_eq loc (VInt (-1)) then ["reverse"] else []).

Lemma silence_valid (loc t m : pyval) (b : bool) (st : state) :
  py_in loc [VInt (-1); VInt 0; VInt 1] = true ->
  is_number t = true ->
  py_le (VInt 0) t = true ->
  py_lt t (VInt 100) = true ->
  is_number m = true ->
  py_gt m (VInt 0) = true ->
  silence loc t m (VBool b) st
  = (mkState (with_effects (self st) (silence_args loc t m b) "silence")
       (trace st),
     Returned tt).
Proof.
  intros Hloc Ht H0 H100 Hm Hpos.
  unfold silence, silence_args.
  rewrite Hloc, Ht, Hm.
  change (py_lt t (VInt 0)) with (py_gt (VInt 0) t).
  rewrite (py_le_not_gt _ _ H0), (py_lt_not_ge _ _ H100), (py_gt_not_le _ _ Hpos).
  cbn [isinstance_bool truthy]. run.
  destruct (py_eq loc (VInt (-1))), (py_eq loc (VInt 0)), b; reflexivity.
Qed.

(** C6: for a location among -1, 0, 1, a threshold [0 <= t < 100], a
    duration [m > 0] and a boolean buffer flag, [silence] appends: a
    leading [reverse] iff the location is -1; [silence -l] if the flag is
    set, else [silence]; then [1 <m> <t>%]; then [-1 <m> <t>%] iff the
    location is 0; then a trailing [reverse] iff the location is -1.
    [silence(0, 0.1, 0.1)] on a new builder leaves the effects
    [silence 1 0.1 0.1% -1 0.1 0.1%]. *)
Theorem silence_tokens (loc t m : pyval) (b : bool) (st : state) :
  py_in loc [VInt (-1); VInt 0; VInt 1] = true ->
  is_number t = true ->
  py_le (VInt 0) t = true ->
  py_lt t (VInt 100) = true ->
  is_number m = true ->
  py_gt m (VInt 0) = true ->
  silence loc t m (VBool b) st
  = (mkState
       (with_effects (self st)
          ((if py_eq loc (VInt (-1)) then ["reverse"] else [])
             ++ (if b then ["silence"; "-l"] else ["silence"])
             ++ ["1"; py_str m; (py_str t ++ "%")%string]
             ++ (if py_eq loc (VInt 0)
                 then ["-1"; py_str m; (py_str t ++ "%")%string] else [])
             ++ (if py_eq loc (VInt (-1)) then ["reverse"] else []))
          "silence")
       (trace st),
     Returned tt)
  /\ effects (self (fst (silence (VInt 0) (VFloat 0.1) (VFloat 0.1)
                           (VBool false) fresh)))
     = ["silence"; "1"; "0.1"; "0.1%"; "-1"; "0.1"; "0.1%"].
Proof.
  intros Hloc Ht H0 H100 Hm Hpos. split; [|vm_compute; reflexivity].
  exact (silence_valid loc t m b st Hloc Ht H0 H100 Hm Hpos).
Qed.

Lemma silence_tokens_witness :
  silence (VInt (-1)) (VInt 5) (VFloat 0.25) (VBool true) fresh
  = (mkState
       (with_effects (self fresh)
          ["reverse"; "silence"; "-l"; "1"; "0.25"; "5%"; "reverse"] "silence")
       (trace fresh),
     Returned tt).
Proof.
  apply (proj1 (@silence_tokens (VInt (-1)) (VInt 5) (VFloat 0.25) true fresh
                  eq_refl eq_refl eq_refl eq_refl eq_refl eq_refl)).
Defined.

(** What the two guards on the threshold do decide: [silence] accepts
    every number [t] with [0 <= t < 100]; it rejects with [ValueError],
    changing nothing, every threshold that is not a number, or is [< 0],
    or is [>= 100]; 0 and 99.999 are accepted and 100 is rejected. *)
Theorem silence_threshold_range :
  (forall (loc t m : pyval) (b : bool) (st : state),
      py_in loc [VInt (-1); VInt 0; VInt 1] = true ->
      is_number m = true -> py_gt m (VInt 0) = true ->
      is_number t = true ->
      py_le (VInt 0) t = true -> py_lt t (VInt 100) = true ->
      snd (silence loc t m (VBool b) st) = Returned tt)
  /\ (forall (loc t m b : pyval) (st : state),
      is_number t = false \/ py_lt t (VInt 0) = true
        \/ py_ge t (VInt 100) = true ->
      exists msg, silence loc t m b st = (st, Raised (ValueError msg)))
  /\ (snd (silence (VInt 0) (VInt 0) (VFloat 0.1) (VBool false) fresh)
        = Returned tt
      /\ snd (silence (VInt 0) (VFloat 99.999) (VFloat 0.1) (VBool false) fresh)
        = Returned tt
      /\ silence (VInt 0) (VInt 100) (VFloat 0.1) (VBool false) fresh
        = (fresh,
           Raised (ValueError
                     "silence_threshold must be a number between 0 and 100"))).
Proof.
  split; [|split].
  - intros loc t m b st Hloc Hm Hpos Ht H0 H100.
    now rewrite (silence_valid loc t m b st Hloc Ht H0 H100 Hm Hpos).
  - intros loc t m b st Hbad. unfold silence.
    destruct (negb (py_in loc [VInt (-1); VInt 0; VInt 1]));
      [eexists; reflexivity|].
    run.
    destruct (is_number t); cbn [negb orb].
    + destruct (py_lt t (VInt 0)); [eexists; reflexivity|].
      destruct Hbad as [Hbad | [Hbad | Hbad]]; try discriminate.
      rewrite Hbad. eexists; reflexivity.
    + eexists; reflexivity.
  - repeat split; vm_compute; reflexivity.
Qed.

Lemma silence_threshold_range_witness :
  snd (silence (VInt 1) (VFloat 50.5) (VInt 2) (VBool true) fresh) = Returned tt
  /\ exists msg,
       silence (VInt 1) (VFloat 100.0) (VInt 2) (VBool true) fresh
       = (fresh, Raised (ValueError msg)).
Proof.
  split.
  - apply (proj1 silence_threshold_range (VInt 1) (VFloat 50.5) (VInt 2) true
             fresh); reflexivity.
  - apply (proj1 (proj2 silence_threshold_range)).
    right; right; reflexivity.
Defined.

(** C7, at the input [silence(silence_threshold=float('nan'))]: NaN is a
    number that is not in [0 <= t < 100] (both [0 <= nan] and [nan < 100]
    are false), so the docstring's "Must be between 0 and 100" excludes
    it; but the two guards, [t < 0] and [t >= 100], are false for it as
    well, so [silence] does not raise: it returns, having appended tokens
    that carry [nan%]. *)
Theorem silence_accepts_nan_threshold (st : state) :
  is_number (VFloat nan) = true
  /\ py_le (VInt 0) (VFloat nan) = false
  /\ py_lt (VFloat nan) (VInt 100) = false
  /\ py_lt (VFloat nan) (VInt 0) = false
  /\ py_ge (VFloat nan) (VInt 100) = false
  /\ silence (VInt 0) (VFloat nan) (VFloat 0.1) (VBool false) st
     = (mkState
          (with_effects (self st)
             ["silence"; "1"; "0.1"; "nan%"; "-1"; "0.1"; "nan%"] "silence")
          (trace st),
        Returned tt).
Proof.
  repeat split; reflexivity.
Qed.

(** ** [convert] raises after it has already written *)

(** C1, at the input [convert(channels=0, bitdepth=8)]: the bit depth is
    valid and is appended to the output format before the channel count
    is examined; the call then raises [ValueError], and the two tokens
    stay. *)
Theorem convert_raises_after_writing (st : state) :
  convert VNone (VInt 0) (VInt 8) st
  = (mkState (with_output_format (self st) ["-b"; "8"]) (trace st),
     Raised (ValueError "channels must be a positive integer."))
  /\ output_format (self (fst (convert VNone (VInt 0) (VInt 8) st)))
     <> output_format (self st).
Proof.
  assert (Hrun :
    convert VNone (VInt 0) (VInt 8) st
    = (mkState (with_output_format (self st) ["-b"; "8"]) (trace st),
       Raised (ValueError "channels must be a positive integer."))).
  { reflexivity. }
  split; [exact Hrun|].
  rewrite Hrun. cbn [fst self with_output_format output_format].
  intros Heq. apply (f_equal (@List.length string)) in Heq.
  rewrite length_app in Heq. cbn [List.length] in Heq. lia.
Qed.

(** ** What a failing call leaves behind *)

(** [preserves m]: [m] never touches the builder.  [total m]: [m] never
    raises.  [atomic m]: when [m] raises, the builder is as before. *)
Definition preserves {A} (m : M A) : Prop :=
  forall st, self (fst (m st)) = self st.

Definition total {A} (m : M A) : Prop :=
  forall st, exists a, snd (m st) = Returned a.

Definition atomic {A} (m : M A) : Prop :=
  forall st st' e, m st = (st', Raised e) -> self st' = self st.

Lemma preserves_ret A (a : A) : preserves (ret a).
Proof. intros st; reflexivity. Qed.

Lemma preserves_raise A (e : exn) : preserves (@raise A e).
Proof. intros st; reflexivity. Qed.

Lemma preserves_emit (ev : event) : preserves (emit ev).
Proof. intros st; reflexivity. Qed.

Lemma preserves_get : preserves get.
Proof. intros st; reflexivity. Qed.

Lemma preserves_evaluate A (r : exn + A) : preserves (evaluate r).
Proof. intros st; destruct r; reflexivity. Qed.

Lemma preserves_when (c : bool) (body : M unit) :
  preserves body -> preserves (when c body).
Proof. intros H st; destruct c; [apply H | reflexivity]. Qed.

Lemma preserves_bind A B (m : M A) (k : A -> M B) :
  preserves m -> (forall a, preserves (k a)) -> preserves (bind m k).
Proof.
  intros Hm Hk st. unfold bind. specialize (Hm st).
  destruct (m st) as [st1 [a|e]]; cbn [fst] in *; [|exact Hm].
  now rewrite Hk.
Qed.

Lemma total_ret A (a : A) : total (ret a).
Proof. intros st; now exists a. Qed.

Lemma total_put (t : Transformer) : total (put t).
Proof. intros st; now exists tt. Qed.

Lemma total_emit (ev : event) : total (emit ev).
Proof. intros st; now exists tt. Qed.

Lemma total_get : total get.
Proof. intros st; now exists (self st). Qed.

Lemma total_when (c : bool) (body : M unit) : total body -> total (when c body).
Proof. intros H st; destruct c; [apply H | now exists tt]. Qed.

Lemma total_bind A B (m : M A) (k : A -> M B) :
  total m -> (forall a, total (k a)) -> total (bind m k).
Proof.
  intros Hm Hk st. unfold bind. destruct (Hm st) as [a Ha].
  destruct (m st) as [st1 o]; cbn [snd] in Ha; subst o. apply Hk.
Qed.

Lemma atomic_total A (m : M A) : total m -> atomic m.
Proof.
  intros H st st' e Heq. destruct (H st) as [a Ha].
  rewrite Heq in Ha. discriminate.
Qed.

Lemma atomic_preserves A (m : M A) : preserves m -> atomic m.
Proof.
  intros H st st' e Heq. specialize (H st). now rewrite Heq in H.
Qed.

Lemma atomic_bind A B (m : M A) (k : A -> M B) :
  preserves m -> (forall a, atomic (k a)) -> atomic (bind m k).
Proof.
  intros Hm Hk st st' e. unfold bind. specialize (Hm st).
  destruct (m st) as [st1 [a|e1]]; cbn [fst] in Hm.
  - intros Heq. rewrite <- Hm. eapply Hk; eassumption.
  - intros Heq. injection Heq as <- _. exact Hm.
Qed.

Create HintDb effect discriminated.
#[local] Hint Resolve preserves_ret preserves_raise preserves_emit preserves_get
  preserves_evaluate preserves_when total_ret total_put total_get total_emit
  total_when
  : effect.

Ltac preserving :=
  repeat first
    [ apply preserves_bind; [|intros ?]
    | apply preserves_when
    | match goal with |- preserves (if ?c then _ else _) => destruct c end
    | solve [auto with effect] ].

Ltac never_raises :=
  unfold effects_extend, effects_log_append, output_format_extend,
    assign_globals;
  repeat first
    [ apply total_bind; [|intros ?]
    | apply total_when
    | solve [auto with effect] ].

Ltac atomically :=
  cbv zeta;
  repeat (apply atomic_bind; [solve [preserving] | intros ?]);
  first [ apply atomic_total; solve [never_raises]
        | apply atomic_preserves; solve [preserving] ].

Lemma set_globals_atomic (d g m r v : pyval) : atomic (set_globals d g m r v).
Proof. unfold set_globals. atomically. Qed.

Lemma compand_atomic (a d k tf : pyval) : atomic (compand a d k tf).
Proof. unfold compand. atomically. Qed.

Lemma fade_atomic (i o sh : pyval) : atomic (fade i o sh).
Proof. unfold fade. atomically. Qed.

Lemma gain_atomic (g n l b : pyval) : atomic (gain g n l b).
Proof. unfold gain. atomically. Qed.

Lemma loudness_atomic (g r : pyval) : atomic (loudness g r).
Proof. unfold loudness. atomically. Qed.

Lemma norm_atomic (d : pyval) : atomic (norm d).
Proof. unfold norm. atomically. Qed.

Lemma pad_atomic (s e : pyval) : atomic (pad s e).
Proof. unfold pad. atomically. Qed.

Lemma rate_atomic (s q : pyval) : atomic (rate s q).
Proof. unfold rate. atomically. Qed.

Lemma silence_atomic (l t m b : pyval) : atomic (silence l t m b).
Proof. unfold silence. atomically. Qed.

Lemma trim_atomic (s e : pyval) : atomic (trim s e).
Proof. unfold trim. atomically. Qed.

Lemma build_preserves (sox : list string -> bool) : preserves (build sox).
Proof. unfold build, call_sox. cbv zeta. preserving. Qed.

(** Every method but [convert] leaves the builder untouched when it
    raises. *)
Lemma invoke_atomic (sox : list string -> bool) (c : call) :
  (forall s ch b, c <> Call_convert s ch b) -> atomic (invoke sox c).
Proof.
  intros Hc. destruct c; cbn [invoke];
    auto using set_globals_atomic, compand_atomic, fade_atomic, gain_atomic,
      loudness_atomic, norm_atomic, pad_atomic, rate_atomic, silence_atomic,
      trim_atomic.
  - apply atomic_preserves, preserves_bind;
      [apply build_preserves | intros ?; apply preserves_ret].
  - exfalso. eapply Hc. reflexivity.
  - apply atomic_preserves, preserves_raise.
Qed.

(** [raises_only P m]: every exception of [m] satisfies [P]. *)
Definition raises_only {A} (P : exn -> Prop) (m : M A) : Prop :=
  forall st st' e, m st = (st', Raised e) -> P e.

Lemma raises_only_total A (P : exn -> Prop) (m : M A) :
  total m -> raises_only P m.
Proof.
  intros H st st' e Heq. destruct (H st) as [a Ha].
  rewrite Heq in Ha. discriminate.
Qed.

Lemma raises_only_raise A (P : exn -> Prop) (e : exn) :
  P e -> raises_only P (@raise A e).
Proof. intros He st st' e' Heq. now injection Heq as _ <-. Qed.

Lemma raises_only_when (P : exn -> Prop) (c : bool) (body : M unit) :
  raises_only P body -> raises_only P (when c body).
Proof.
  intros H st st' e. destruct c; cbn [when]; [apply H | discriminate].
Qed.

Lemma raises_only_bind A B (P : exn -> Prop) (m : M A) (k : A -> M B) :
  raises_only P m -> (forall a, raises_only P (k a)) ->
  raises_only P (bind m k).
Proof.
  intros Hm Hk st st' e. unfold bind.
  destruct (m st) as [st1 [a|e1]] eqn:Hrun.
  - apply Hk.
  - intros Heq. injection Heq as _ <-. eapply Hm; eassumption.
Qed.

Ltac validating :=
  cbv zeta;
  repeat first
    [ apply raises_only_bind; [|intros ?]
    | apply raises_only_when
    | apply raises_only_raise; exact I
    | match goal with |- raises_only _ (if ?c then _ else _) => destruct c end
    | apply raises_only_total; solve [never_raises] ].

(** Whatever [set_globals] or an implemented effect other than [trim]
    raises is a [ValueError] or a [TypeError]. *)
Lemma set_globals_raises (d g m r v : pyval) :
  raises_only InvalidParameter (set_globals d g m r v).
Proof. unfold set_globals. validating. Qed.

Lemma compand_raises (a d k tf : pyval) :
  raises_only InvalidParameter (compand a d k tf).
Proof. unfold compand. validating. Qed.

Lemma rate_raises (s q : pyval) : raises_only InvalidParameter (rate s q).
Proof. unfold rate. validating. Qed.

Lemma convert_raises (s c b : pyval) :
  raises_only InvalidParameter (convert s c b).
Proof. unfold convert. validating. Qed.

Lemma fade_raises (i o sh : pyval) : raises_only InvalidParameter (fade i o sh).
Proof. unfold fade. validating. Qed.

Lemma gain_raises (g n l b : pyval) :
  raises_only InvalidParameter (gain g n l b).
Proof. unfold gain. validating. Qed.

Lemma loudness_raises (g r : pyval) :
  raises_only InvalidParameter (loudness g r).
Proof. unfold loudness. validating. Qed.

Lemma norm_raises (d : pyval) : raises_only InvalidParameter (norm d).
Proof. unfold norm. validating. Qed.

Lemma pad_raises (s e : pyval) : raises_only InvalidParameter (pad s e).
Proof. unfold pad. validating. Qed.

Lemma silence_raises (l t m b : pyval) :
  raises_only InvalidParameter (silence l t m b).
Proof. unfold silence. validating. Qed.

(** ** [compand] on duplicate x-values *)

Lemma distinct_length_le (xs : list pyval) :
  (List.length (distinct xs) <= List.length xs)%nat.
Proof.
  induction xs as [|x xs IH]; cbn [distinct List.length]; [lia|].
  destruct (py_in x xs); cbn [List.length]; lia.
Qed.

Lemma duplicate_shrinks_set (xs : list pyval) :
  all_distinct xs = false -> (len_set xs <? List.length xs)%nat = true.
Proof.
  unfold len_set. intros H. apply Nat.ltb_lt.
  induction xs as [|x xs IH]; cbn [all_distinct distinct List.length] in *;
    [discriminate|].
  destruct (py_in x xs); cbn [negb andb List.length] in *.
  - pose proof (distinct_length_le xs). lia.
  - specialize (IH H). lia.
Qed.

Lemma distinct_keeps_all (xs : list pyval) :
  all_distinct xs = true -> (len_set xs <? List.length xs)%nat = false.
Proof.
  unfold len_set. intros H. apply Nat.ltb_ge.
  induction xs as [|x xs IH]; cbn [all_distinct distinct List.length] in *;
    [lia|].
  destruct (py_in x xs); cbn [negb andb List.length] in *;
    [discriminate|].
  specialize (IH H). lia.
Qed.

Lemma bind_when_emit A (ev : event) (k : unit -> M A) (st : state) :
  bind (when true (emit ev)) k st = k tt (mkState (self st) (trace st ++ [ev])).
Proof. reflexivity. Qed.

(** Whatever the other arguments, a [tf_points] list with two equal
    x-values makes [compand] raise a [ValueError] or [TypeError] and leave
    the builder, effects and log included, as it was. *)
Lemma compand_duplicate_x_rejected (a d k : pyval) (pts : list pyval)
    (st : state) :
  all_distinct (map (fun p => getitem p 0) pts) = false ->
  exists st' e,
    compand a d k (VList pts) st = (st', Raised e)
    /\ InvalidParameter e
    /\ self st' = self st.
Proof.
  intros Hdup.
  assert (Hfails : exists st' e, compand a d k (VList pts) st = (st', Raised e)).
  { unfold compand. cbn [items len isinstance_list negb].
    pose proof (duplicate_shrinks_set _ Hdup) as Hlen.
    rewrite length_map in Hlen. rewrite Hlen.
    destruct (negb (is_number a) || py_le a (VInt 0));
      [do 2 eexists; reflexivity | rewrite bind_when_false].
    destruct (negb (is_number d) || py_le d (VInt 0));
      [do 2 eexists; reflexivity | rewrite bind_when_false].
    destruct (py_gt a d); [rewrite bind_when_emit | rewrite bind_when_false];
      repeat match goal with
        | |- exists st' e, bind (when false _) _ _ = _ =>
            rewrite bind_when_false
        | |- exists st' e, bind (when true (raise _)) _ _ = _ =>
            do 2 eexists; reflexivity
        | |- exists st' e, bind (when ?c _) _ _ = _ => destruct c
        end. }
  destruct Hfails as (st' & e & Hrun). exists st', e.
  split; [exact Hrun|]. split.
  - exact (compand_raises a d k (VList pts) st st' e Hrun).
  - exact (compand_atomic a d k (VList pts) st st' e Hrun).
Qed.

(** ** The effect tokens only grow *)

Lemma prefix_refl (xs : list string) : prefix xs xs.
Proof. exists []. now rewrite app_nil_r. Qed.

Lemma prefix_trans (xs ys zs : list string) :
  prefix xs ys -> prefix ys zs -> prefix xs zs.
Proof.
  intros [u ->] [v ->]. exists (u ++ v). now rewrite app_assoc.
Qed.

(** [grows m]: the effect tokens before [m] are a prefix of those after. *)
Definition grows {A} (m : M A) : Prop :=
  forall st, prefix (effects (self st)) (effects (self (fst (m st)))).

Lemma grows_preserves A (m : M A) : preserves m -> grows m.
Proof. intros H st. rewrite H. apply prefix_refl. Qed.

Lemma grows_effects_extend (args : list string) : grows (effects_extend args).
Proof. intros st. now exists args. Qed.

Lemma grows_effects_log_append (name : string) :
  grows (effects_log_append name).
Proof. intros st. apply prefix_refl. Qed.

Lemma grows_output_format_extend (args : list string) :
  grows (output_format_extend args).
Proof. intros st. apply prefix_refl. Qed.

Lemma grows_assign_globals (args : list string) : grows (assign_globals args).
Proof. intros st. apply prefix_refl. Qed.

Lemma grows_when (c : bool) (body : M unit) : grows body -> grows (when c body).
Proof. intros H st. destruct c; [apply H | apply prefix_refl]. Qed.

Lemma grows_bind A B (m : M A) (k : A -> M B) :
  grows m -> (forall a, grows (k a)) -> grows (bind m k).
Proof.
  intros Hm Hk st. unfold bind. specialize (Hm st).
  destruct (m st) as [st1 [a|e]]; cbn [fst] in *; [|exact Hm].
  eapply prefix_trans; [exact Hm | apply Hk].
Qed.

#[local] Hint Resolve grows_effects_extend grows_effects_log_append
  grows_output_format_extend grows_assign_globals : effect.

Ltac growing :=
  cbv zeta;
  repeat first
    [ solve [auto with effect]
    | apply grows_bind; [|intros ?]
    | apply grows_when
    | match goal with |- grows (if ?c then _ else _) => destruct c end
    | apply grows_preserves; solve [preserving] ].

Lemma rate_grows (s q : pyval) : grows (rate s q).
Proof. unfold rate. growing. Qed.

Lemma invoke_grows (sox : list string -> bool) (c : call) :
  grows (invoke sox c).
Proof.
  destruct c; cbn [invoke].
  - unfold set_globals. growing.
  - apply grows_preserves, preserves_bind;
      [apply build_preserves | intros ?; apply preserves_ret].
  - unfold compand. growing.
  - unfold convert. growing; apply rate_grows.
  - unfold fade. growing.
  - unfold gain. growing.
  - unfold loudness. growing.
  - unfold norm. growing.
  - unfold pad. growing.
  - apply rate_grows.
  - unfold silence. growing.
  - unfold trim. growing.
  - apply grows_preserves, preserves_raise.
Qed.

(** C9: whatever the call (set_globals, build, an implemented effect or a
    stub) and whether it returns or raises, the effect tokens held before
    it are a prefix of those held after it; hence the same across any
    sequence of calls, each made whether or not the previous one
    raised. *)
Theorem effects_only_grow (sox : list string -> bool) :
  (forall (c : call) (st : state),
      prefix (effects (self st)) (effects (self (fst (invoke sox c st)))))
  /\ (forall (cs : list call) (st : state),
      prefix (effects (self st)) (effects (self (invoke_all sox cs st)))).
Proof.
  split.
  - intros c st. apply invoke_grows.
  - induction cs as [|c cs IH]; intros st; cbn [invoke_all].
    + apply prefix_refl.
    + eapply prefix_trans; [apply (invoke_grows sox c st) | apply IH].
Qed.

(** ** [sorted] on keys that are ordered *)

Lemma ereal_lt_trans (a b c : ereal) :
  ereal_compare a b = Some Lt -> ereal_compare b c = Some Lt ->
  ereal_compare a c = Some Lt.
Proof.
  destruct a, b, c; simpl; try discriminate; try reflexivity.
  intros Hab Hbc. injection Hab as Hab. injection Hbc as Hbc. f_equal.
  apply Qlt_alt. apply Qlt_alt in Hab, Hbc. eapply Qlt_trans; eassumption.
Qed.

Lemma py_lt_trans (a b c : pyval) :
  py_lt a b = true -> py_lt b c = true -> py_lt a c = true.
Proof.
  unfold py_lt, num_compare.
  destruct (number_value a) as [x|], (number_value b) as [y|],
    (number_value c) as [z|]; try discriminate.
  destruct (ereal_compare x y) as [[]|] eqn:Hxy; try discriminate.
  destruct (ereal_compare y z) as [[]|] eqn:Hyz; try discriminate.
  now rewrite (ereal_lt_trans x y z Hxy Hyz).
Qed.

(** A value [<= 0] is a number other than NaN and plus infinity. *)
Lemma nonpositive_value (x : pyval) :
  py_le x (VInt 0) = true ->
  is_numeric x = true
  /\ (number_value x = Some ENegInf \/ exists q, number_value x = Some (EFin q)).
Proof.
  unfold py_le, num_compare. intros H. split.
  - destruct x; cbn [number_value] in H; try discriminate; reflexivity.
  - destruct (number_value x) as [[| |q|]|]; cbn in H; try discriminate;
      [now left | right; now exists q].
Qed.

Lemma nonpositive_comparable (x y : pyval) :
  py_le x (VInt 0) = true -> py_le y (VInt 0) = true ->
  exists c, num_compare x y = Some c.
Proof.
  intros Hx Hy.
  destruct (nonpositive_value x Hx) as [_ [Ex | [p Ex]]],
    (nonpositive_value y Hy) as [_ [Ey | [q Ey]]];
    unfold num_compare; rewrite Ex, Ey; cbn [ereal_compare]; eauto.
Qed.

Lemma py_eq_numeric (x y : pyval) :
  is_numeric x = true -> is_numeric y = true ->
  py_eq x y = match num_compare x y with Some Eq => true | _ => false end.
Proof.
  destruct x; try discriminate; destruct y; try discriminate; reflexivity.
Qed.

(** Among values [<= 0], two that are not [==] and not in descending
    order are in ascending order. *)
Lemma nonpositive_trichotomy (x y : pyval) :
  py_le x (VInt 0) = true -> py_le y (VInt 0) = true ->
  py_eq x y = false -> py_lt y x = false -> py_lt x y = true.
Proof.
  intros Hx Hy Hne Hnlt.
  destruct (nonpositive_comparable x y Hx Hy) as [c Hc].
  rewrite (py_eq_numeric x y (proj1 (nonpositive_value x Hx))
             (proj1 (nonpositive_value y Hy))) in Hne.
  unfold py_lt in *. rewrite (num_compare_antisym x y) in Hnlt.
  rewrite Hc in *. cbn [option_map] in Hnlt.
  destruct c; cbn [CompOpp] in *; congruence.
Qed.

Section SortedFacts.
Variable key : pyval -> pyval.

Let ascending (p q : pyval) : Prop := py_lt (key p) (key q) = true.

Lemma insert_by_perm (p : pyval) (l : list pyval) :
  Permutation (insert_by key p l) (p :: l).
Proof.
  induction l as [|q l IH]; cbn [insert_by]; [reflexivity|].
  destruct (py_lt (key q) (key p)); [|reflexivity].
  rewrite IH. apply perm_swap.
Qed.

Lemma sorted_perm (l : list pyval) : Permutation (sorted key l) l.
Proof.
  induction l as [|p l IH]; cbn [sorted fold_right]; [reflexivity|].
  fold (sorted key l). rewrite insert_by_perm. now constructor.
Qed.

Lemma insert_by_sorted (p : pyval) (l : list pyval) :
  py_le (key p) (VInt 0) = true ->
  Forall (fun q => py_le (key q) (VInt 0) = true
                   /\ py_eq (key p) (key q) = false) l ->
  StronglySorted ascending l ->
  StronglySorted ascending (insert_by key p l).
Proof.
  intros Hp Hl Hs. induction l as [|q l IH]; cbn [insert_by].
  - repeat constructor.
  - inversion Hl as [|? ? [Hq Hpq] Hl']; subst.
    apply StronglySorted_inv in Hs as [Hs Hql].
    destruct (py_lt (key q) (key p)) eqn:Hlt.
    + constructor; [now apply IH|].
      eapply Permutation_Forall;
        [symmetry; apply insert_by_perm|].
      constructor; assumption.
    + assert (Hasc : ascending p q).
      { apply nonpositive_trichotomy; assumption. }
      constructor; [now constructor|].
      constructor; [exact Hasc|].
      eapply Forall_impl; [|exact Hql].
      intros r Hqr. eapply py_lt_trans; eassumption.
Qed.

Lemma all_distinct_head (x : pyval) (l : list pyval) :
  py_in x (map key l) = false ->
  Forall (fun q => py_eq x (key q) = false) l.
Proof.
  unfold py_in. induction l as [|q l IH]; cbn [map existsb]; [constructor|].
  intros H. apply orb_false_iff in H as [Hq Hl]. constructor; auto.
Qed.

Lemma sorted_ascending (l : list pyval) :
  Forall (fun q => py_le (key q) (VInt 0) = true) l ->
  all_distinct (map key l) = true ->
  StronglySorted ascending (sorted key l).
Proof.
  induction l as [|p l IH]; cbn [sorted fold_right map all_distinct].
  - constructor.
  - fold (sorted key l). intros Hl Hd.
    inversion Hl as [|? ? Hp Hl']; subst.
    apply andb_true_iff in Hd as [Hp_new Hd].
    apply negb_true_iff in Hp_new.
    apply insert_by_sorted; [exact Hp| |now apply IH].
    eapply Permutation_Forall; [symmetry; apply sorted_perm|].
    apply Forall_forall. intros q Hq. split.
    + rewrite Forall_forall in Hl'. now apply Hl'.
    + pose proof (all_distinct_head (key p) l Hp_new) as Hne.
      rewrite Forall_forall in Hne. now apply Hne.
Qed.
End SortedFacts.

(** ** [compand] *)

(** A transfer-function point the spec calls valid: two numbers, each
    [<= 0]. *)
Definition valid_point (p : pyval * pyval) : bool :=
  is_number (fst p) && is_number (snd p)
  && py_le (fst p) (VInt 0) && py_le (snd p) (VInt 0).

(** The flattened rendering [x1, y1, x2, y2, ...] of a list of points. *)
Definition flatten (pts : list (pyval * pyval)) : list string :=
  flat_map (fun p => [py_str (fst p); py_str (snd p)]) pts.

Lemma valid_point_inv (p : pyval * pyval) :
  valid_point p = true ->
  is_number (fst p) = true /\ is_number (snd p) = true
  /\ py_le (fst p) (VInt 0) = true /\ py_le (snd p) (VInt 0) = true.
Proof.
  unfold valid_point. intros H.
  apply andb_true_iff in H as [H H4].
  apply andb_true_iff in H as [H H3].
  apply andb_true_iff in H as [H1 H2]. auto.
Qed.

Lemma any_points_false (f : pyval -> bool) (pts : list (pyval * pyval)) :
  forallb valid_point pts = true ->
  (forall p, valid_point p = true -> f (point p) = false) ->
  any f (map point pts) = false.
Proof.
  intros Hall Hf. unfold any.
  induction pts as [|p pts IH]; cbn [map existsb forallb] in *; [reflexivity|].
  apply andb_true_iff in Hall as [Hp Hall].
  now rewrite (Hf p Hp), IH.
Qed.

Lemma keys_of_points (pts : list (pyval * pyval)) :
  map (fun p => getitem p 0) (map point pts) = map fst pts.
Proof. rewrite map_map. reflexivity. Qed.

Lemma flatten_points (pts : list (pyval * pyval)) :
  flat_map (fun q => [py_str (getitem q 0); py_str (getitem q 1)])
    (map point pts)
  = flatten pts.
Proof.
  unfold flatten. induction pts as [|p pts IH]; cbn [map flat_map];
    [reflexivity|].
  now rewrite IH.
Qed.

Lemma ascending_points (sp : list (pyval * pyval)) :
  StronglySorted
    (fun p q => py_lt (getitem p 0) (getitem q 0) = true) (map point sp) ->
  StronglySorted (fun p q => py_lt (fst p) (fst q) = true) sp.
Proof.
  induction sp as [|p sp IH]; cbn [map]; intros H; [constructor|].
  apply StronglySorted_inv in H as [H Hp].
  constructor; [now apply IH|].
  rewrite Forall_map in Hp. exact Hp.
Qed.

(** The points in the order [compand] renders them. *)
Lemma sorted_points (pts : list (pyval * pyval)) :
  forallb valid_point pts = true ->
  all_distinct (map fst pts) = true ->
  exists sp,
    sorted (fun p => getitem p 0) (map point pts) = map point sp
    /\ Permutation sp pts
    /\ StronglySorted (fun p q => py_lt (fst p) (fst q) = true) sp.
Proof.
  intros Hvalid Hdistinct.
  destruct (Permutation_map_inv point pts
              (sorted_perm (fun p => getitem p 0) (map point pts)))
    as (sp & Hsp & Hperm).
  exists sp. split; [exact Hsp|]. split; [now symmetry|].
  apply ascending_points. rewrite <- Hsp.
  apply sorted_ascending.
  - rewrite Forall_map. apply Forall_forall. intros p Hp.
    rewrite forallb_forall in Hvalid.
    now destruct (valid_point_inv p (Hvalid p Hp)) as (_ & _ & Hx & _).
  - now rewrite keys_of_points.
Qed.

(** C4: for [attack > 0], [decay > 0], a soft knee that is a number or
    [None], and a non-empty list of points, each a pair of numbers [<= 0],
    no two with [==] x-values, [compand] returns having appended the
    name [compand] to the log and to the effects the three tokens
    [compand], [<attack>,<decay>] and the comma-joined flattening
    [x1,y1,x2,y2,...] of the points arranged in strictly ascending x,
    prefixed with [<soft knee>:] unless the soft knee is [None]; with the
    default arguments on a new builder the effects are
    [compand 0.3,0.8 6.0:-70,-70,-60,-20,0,0]. *)
Theorem compand_tokens (a d k : pyval) (pts : list (pyval * pyval))
    (st : state) :
  is_number a = true -> py_gt a (VInt 0) = true ->
  is_number d = true -> py_gt d (VInt 0) = true ->
  is_number k || is_None k = true ->
  pts <> [] ->
  forallb valid_point pts = true ->
  all_distinct (map fst pts) = true ->
  (exists sp : list (pyval * pyval),
      Permutation sp pts
      /\ StronglySorted (fun p q => py_lt (fst p) (fst q) = true) sp
      /\ self (fst (compand a d k (VList (map point pts)) st))
         = with_effects (self st)
             ["compand";
              (py_str a ++ "," ++ py_str d)%string;
              (if is_None k then join "," (flatten sp)
               else py_str k ++ ":" ++ join "," (flatten sp))%string]
             "compand"
      /\ snd (compand a d k (VList (map point pts)) st) = Returned tt)
  /\ effects (self (fst (compand compand_attack_time_default
                           compand_decay_time_default
                           compand_soft_knee_db_default
                           compand_tf_points_default fresh)))
     = ["compand"; "0.3,0.8"; "6.0:-70,-70,-60,-20,0,0"].
Proof.
  intros Ha Hapos Hd Hdpos Hk Hne Hvalid Hdistinct.
  split; [|vm_compute; reflexivity].
  destruct (sorted_points pts Hvalid Hdistinct) as (sp & Hsp & Hperm & Hasc).
  exists sp. split; [exact Hperm|]. split; [exact Hasc|].
  unfold compand. cbn [items len isinstance_list].
  rewrite Ha, Hd, Hk, (py_gt_not_le _ _ Hapos), (py_gt_not_le _ _ Hdpos).
  pose proof (distinct_keeps_all _ Hdistinct) as Hlen.
  rewrite length_map in Hlen.
  rewrite keys_of_points, length_map, Hlen, Hsp.
  rewrite flatten_points.
  rewrite !any_points_false; try exact Hvalid.
  - destruct pts as [|p0 pts]; [contradiction|]. cbn [List.length Nat.eqb].
    run.
    destruct (py_gt a d), (is_None k); run; split; reflexivity.
  - intros p Hp. destruct (valid_point_inv p Hp) as (_ & _ & Hx & Hy).
    cbn [point getitem nth].
    now rewrite (py_le_not_gt _ _ Hx), (py_le_not_gt _ _ Hy).
  - intros p Hp. destruct (valid_point_inv p Hp) as (Hx & Hy & _ & _).
    cbn [point getitem nth]. now rewrite Hx, Hy.
  - intros p Hp. reflexivity.
  - intros p Hp. reflexivity.
Qed.

Lemma compand_tokens_witness :
  (exists sp : list (pyval * pyval),
      Permutation sp [(VInt 0, VInt 0); (VFloat (-60.5), VInt (-20));
                      (VInt (-70), VInt (-70))]
      /\ StronglySorted (fun p q => py_lt (fst p) (fst q) = true) sp
      /\ self (fst (compand (VFloat 0.3) (VInt 1) VNone
                      (VList (map point
                                [(VInt 0, VInt 0); (VFloat (-60.5), VInt (-20));
                                 (VInt (-70), VInt (-70))])) fresh))
         = with_effects (self fresh)
             ["compand";
              (py_str (VFloat 0.3) ++ "," ++ py_str (VInt 1))%string;
              (if is_None VNone then join "," (flatten sp)
               else py_str VNone ++ ":" ++ join "," (flatten sp))%string]
             "compand"
      /\ snd (compand (VFloat 0.3) (VInt 1) VNone
                (VList (map point
                          [(VInt 0, VInt 0); (VFloat (-60.5), VInt (-20));
                           (VInt (-70), VInt (-70))])) fresh)
         = Returned tt)
  /\ effects (self (fst (compand compand_attack_time_default
                           compand_decay_time_default
                           compand_soft_knee_db_default
                           compand_tf_points_default fresh)))
     = ["compand"; "0.3,0.8"; "6.0:-70,-70,-60,-20,0,0"].
Proof.
  apply (compand_tokens (VFloat 0.3) (VInt 1) VNone
           [(VInt 0, VInt 0); (VFloat (-60.5), VInt (-20));
            (VInt (-70), VInt (-70))] fresh);
    try reflexivity.
  discriminate.
Defined.

(* ================================================================== *)
(** * Further properties of the methods *)
(* ================================================================== *)

(** ** [gain] *)

(** The checks of [gain], in the order the method makes them. *)
Definition gain_valid (gain_db normalize limiter balance : pyval) : bool :=
  is_number gain_db && isinstance_bool normalize && isinstance_bool limiter
  && py_in balance [VNone; VStr "e"; VStr "B"; VStr "b"].

(** X1: [gain] either passes all four checks and appends [gain], then
    [-<balance>] unless the balance is [None], [-n] if normalize, [-l] if
    limiter, and the gain last, logging [gain]; or fails one of them and
    raises [ValueError] with the whole state as before. *)
Theorem gain_encodes_or_rejects (g n l b : pyval) (st : state) :
  if gain_valid g n l b
  then gain g n l b st
       = (mkState
            (with_effects (self st)
               (["gain"]
                  ++ (if is_None b then [] else [("-" ++ py_str b)%string])
                  ++ (if truthy n then ["-n"] else [])
                  ++ (if truthy l then ["-l"] else [])
                  ++ [py_str g])
               "gain")
            (trace st),
          Returned tt)
  else exists msg, gain g n l b st = (st, Raised (ValueError msg)).
Proof.
  unfold gain_valid, gain.
  destruct (is_number g); cbn [andb negb]; [|eexists; reflexivity].
  destruct (isinstance_bool n); cbn [andb negb]; [|eexists; reflexivity].
  destruct (isinstance_bool l); cbn [andb negb]; [|eexists; reflexivity].
  destruct (py_in b [VNone; VStr "e"; VStr "B"; VStr "b"]);
    cbn [andb negb]; [|eexists; reflexivity].
  run. destruct (is_None b), (truthy n), (truthy l); reflexivity.
Qed.

(** ** [loudness] *)

(** X2: [loudness] takes a reference level from 50 to 75, both bounds
    included, and then appends [loudness <gain> <level>] and logs
    [loudness]; a level below 50 or above 75 makes it raise [ValueError]
    whatever the gain, leaving the state as before. *)
Theorem loudness_reference_level_bounds :
  (forall (g r : pyval) (st : state),
      is_number g = true -> is_number r = true ->
      py_le (VInt 50) r = true -> py_le r (VInt 75) = true ->
      loudness g r st
      = (mkState (with_effects (self st) ["loudness"; py_str g; py_str r]
                    "loudness")
           (trace st),
         Returned tt))
  /\ (forall (g r : pyval) (st : state),
      py_lt r (VInt 50) = true \/ py_gt r (VInt 75) = true ->
      exists msg, loudness g r st = (st, Raised (ValueError msg))).
Proof.
  split.
  - intros g r st Hg Hr Hlo Hhi. unfold loudness.
    rewrite Hg, Hr, (py_le_not_gt _ _ Hhi).
    change (py_lt r (VInt 50)) with (py_gt (VInt 50) r).
    rewrite (py_le_not_gt _ _ Hlo). reflexivity.
  - intros g r st Hout. unfold loudness.
    destruct (negb (is_number g)); [eexists; reflexivity|].
    destruct (negb (is_number r)); [eexists; reflexivity|].
    assert (Hc : py_gt r (VInt 75) || py_lt r (VInt 50) = true).
    { destruct Hout as [H | H]; rewrite H; [apply orb_true_r | reflexivity]. }
    rewrite Hc. eexists; reflexivity.
Qed.

Lemma loudness_reference_level_bounds_witness :
  loudness (VFloat (-10.0)) (VInt 50) fresh
  = (mkState (with_effects (self fresh) ["loudness"; "-10.0"; "50"] "loudness")
       (trace fresh),
     Returned tt)
  /\ loudness (VInt 0) (VFloat 75.0) fresh
     = (mkState (with_effects (self fresh) ["loudness"; "0"; "75.0"] "loudness")
          (trace fresh),
        Returned tt)
  /\ exists msg,
       loudness (VInt 0) (VFloat 75.5) fresh = (fresh, Raised (ValueError msg)).
Proof.
  split; [|split].
  - apply (proj1 loudness_reference_level_bounds (VFloat (-10.0)) (VInt 50) fresh);
      reflexivity.
  - apply (proj1 loudness_reference_level_bounds (VInt 0) (VFloat 75.0) fresh);
      reflexivity.
  - apply (proj2 loudness_reference_level_bounds (VInt 0) (VFloat 75.5) fresh).
    right; reflexivity.
Defined.

(** ** [pad] *)

(** X3: for two numbers [>= 0], zero included, [pad] appends
    [pad <start> <end>] and logs [pad]; unlike [fade], it records the
    call even when both durations are zero.  A negative or non-numeric
    duration makes it raise [ValueError], the state as before. *)
Theorem pad_always_encodes :
  (forall (s e : pyval) (st : state),
      is_number s = true -> is_number e = true ->
      py_ge s (VInt 0) = true -> py_ge e (VInt 0) = true ->
      pad s e st
      = (mkState (with_effects (self st) ["pad"; py_str s; py_str e] "pad")
           (trace st),
         Returned tt))
  /\ (forall (s e : pyval) (st : state),
      is_number s = false \/ is_number e = false
        \/ py_lt s (VInt 0) = true \/ py_lt e (VInt 0) = true ->
      exists msg, pad s e st = (st, Raised (ValueError msg))).
Proof.
  split.
  - intros s e st Hs He Hs0 He0. unfold pad.
    rewrite Hs, He, (py_ge_not_lt _ _ Hs0), (py_ge_not_lt _ _ He0).
    reflexivity.
  - intros s e st Hbad. unfold pad.
    destruct (negb (is_number s) || py_lt s (VInt 0)) eqn:Hc1;
      [eexists; reflexivity|].
    destruct (negb (is_number e) || py_lt e (VInt 0)) eqn:Hc2;
      [eexists; reflexivity|].
    apply orb_false_iff in Hc1 as [Hs Hs0], Hc2 as [He He0].
    apply negb_false_iff in Hs, He.
    destruct Hbad as [H | [H | [H | H]]]; congruence.
Qed.

Lemma pad_always_encodes_witness :
  pad (VFloat 0.0) (VInt 0) fresh
  = (mkState (with_effects (self fresh) ["pad"; "0.0"; "0"] "pad") (trace fresh),
     Returned tt)
  /\ exists msg, pad (VInt 1) (VFloat (-0.5)) fresh = (fresh, Raised (ValueError msg)).
Proof.
  split.
  - apply (proj1 pad_always_encodes (VFloat 0.0) (VInt 0) fresh); reflexivity.
  - apply (proj2 pad_always_encodes (VInt 1) (VFloat (-0.5)) fresh).
    right; right; right; reflexivity.
Defined.

(** ** [rate] *)

(** X4: for a number [r > 0] and a quality among q, l, m, h, v, [rate]
    appends [rate -<quality> <r>] and logs [rate]; a sample rate that is
    zero, negative or not a number, or any other quality, makes it raise
    [ValueError], the state as before. *)
Theorem rate_encodes_or_rejects :
  (forall (r q : pyval) (st : state),
      is_number r = true -> py_gt r (VInt 0) = true ->
      py_in q [VStr "q"; VStr "l"; VStr "m"; VStr "h"; VStr "v"] = true ->
      rate r q st
      = (mkState
           (with_effects (self st)
              ["rate"; ("-" ++ py_str q)%string; py_str r] "rate")
           (trace st),
         Returned tt))
  /\ (forall (r q : pyval) (st : state),
      is_number r = false \/ py_le r (VInt 0) = true
        \/ py_in q [VStr "q"; VStr "l"; VStr "m"; VStr "h"; VStr "v"] = false ->
      exists msg, rate r q st = (st, Raised (ValueError msg))).
Proof.
  split.
  - intros r q st Hr Hpos Hq. unfold rate.
    rewrite Hr, (py_gt_not_le _ _ Hpos), Hq. reflexivity.
  - intros r q st Hbad. unfold rate.
    destruct (negb (is_number r) || py_le r (VInt 0)) eqn:Hc1;
      [eexists; reflexivity|].
    apply orb_false_iff in Hc1 as [Hr Hr0]. apply negb_false_iff in Hr.
    destruct Hbad as [H | [H | H]]; try congruence.
    rewrite H. eexists; reflexivity.
Qed.

Lemma rate_encodes_or_rejects_witness :
  rate (VFloat 22050.5) (VStr "v") fresh
  = (mkState (with_effects (self fresh) ["rate"; "-v"; "22050.5"] "rate")
       (trace fresh),
     Returned tt)
  /\ exists msg, rate (VInt 0) (VStr "h") fresh = (fresh, Raised (ValueError msg)).
Proof.
  split.
  - apply (proj1 rate_encodes_or_rejects (VFloat 22050.5) (VStr "v") fresh);
      reflexivity.
  - apply (proj2 rate_encodes_or_rejects (VInt 0) (VStr "h") fresh).
    right; left; reflexivity.
Defined.

(** ** [fade] with a non-zero length *)

(** X5: for a valid shape and two numbers [>= 0], [fade] appends the
    fade-in tokens [fade <shape> <in>] iff the fade-in length is [> 0],
    then [reverse fade <shape> <out> reverse] iff the fade-out length is
    [> 0], and logs [fade] once when it appended anything; a shape
    outside q, h, t, l, p or a negative length makes it raise
    [ValueError], the state as before. *)
Theorem fade_encodes_or_rejects :
  (forall (i o sh : pyval) (st : state),
      py_in sh [VStr "q"; VStr "h"; VStr "t"; VStr "l"; VStr "p"] = true ->
      is_number i = true -> is_number o = true ->
      py_ge i (VInt 0) = true -> py_ge o (VInt 0) = true ->
      fade i o sh st
      = if py_gt i (VInt 0) || py_gt o (VInt 0)
        then (mkState
                (with_effects (self st)
                   ((if py_gt i (VInt 0)
                     then ["fade"; py_str sh; py_str i] else [])
                      ++ (if py_gt o (VInt 0)
                          then ["reverse"; "fade"; py_str sh; py_str o;
                                "reverse"]
                          else []))
                   "fade")
                (trace st),
              Returned tt)
        else (st, Returned tt))
  /\ (forall (i o sh : pyval) (st : state),
      py_in sh [VStr "q"; VStr "h"; VStr "t"; VStr "l"; VStr "p"] = false
        \/ py_lt i (VInt 0) = true \/ py_lt o (VInt 0) = true ->
      exists msg, fade i o sh st = (st, Raised (ValueError msg))).
Proof.
  split.
  - intros i o sh st Hsh Hi Ho Hi0 Ho0. unfold fade.
    rewrite Hsh, Hi, Ho, (py_ge_not_lt _ _ Hi0), (py_ge_not_lt _ _ Ho0).
    destruct (py_gt i (VInt 0)), (py_gt o (VInt 0)); reflexivity.
  - intros i o sh st Hbad. unfold fade.
    destruct (py_in sh [VStr "q"; VStr "h"; VStr "t"; VStr "l"; VStr "p"]);
      cbn [negb]; [|eexists; reflexivity].
    destruct (negb (is_number i) || py_lt i (VInt 0)) eqn:Hc1;
      [eexists; reflexivity|].
    destruct (negb (is_number o) || py_lt o (VInt 0)) eqn:Hc2;
      [eexists; reflexivity|].
    apply orb_false_iff in Hc1 as [_ Hi0], Hc2 as [_ Ho0].
    destruct Hbad as [H | [H | H]]; congruence.
Qed.

Lemma fade_encodes_or_rejects_witness :
  fade (VInt 1) (VFloat 0.5) (VStr "h") fresh
  = (mkState
       (with_effects (self fresh)
          ["fade"; "h"; "1"; "reverse"; "fade"; "h"; "0.5"; "reverse"] "fade")
       (trace fresh),
     Returned tt)
  /\ exists msg,
       fade (VInt 1) (VInt 1) (VStr "x") fresh = (fresh, Raised (ValueError msg)).
Proof.
  split.
  - apply (proj1 fade_encodes_or_rejects (VInt 1) (VFloat 0.5) (VStr "h") fresh);
      reflexivity.
  - apply (proj2 fade_encodes_or_rejects (VInt 1) (VInt 1) (VStr "x") fresh).
    left; reflexivity.
Defined.

(** ** [convert] *)

(** The checks of [convert]; an argument that is [None] is not checked. *)
Definition convert_valid (samplerate channels0 bitdepth : pyval) : bool :=
  (is_None bitdepth
   || py_in bitdepth [VInt 8; VInt 16; VInt 24; VInt 32; VInt 64])
  && (is_None channels0
      || (isinstance_int channels0 && negb (py_le channels0 (VInt 0))))
  && (is_None samplerate
      || (is_number samplerate && negb (py_le samplerate (VInt 0)))).

Lemma rate_quality_default_ok :
  py_in rate_quality_default [VStr "q"; VStr "l"; VStr "m"; VStr "h"; VStr "v"]
  = true.
Proof. reflexivity. Qed.

(** X6: when every argument of [convert] that is not [None] passes its
    check, the call returns; it has appended [-b <bitdepth>] and then
    [-c <channels>] to the output format, each only if given, and
    [rate -h <samplerate>] to the effects with [rate] in the log only if
    a sample rate is given; with all three [None] nothing is appended.
    Otherwise the call raises [ValueError]. *)
Theorem convert_encodes_or_rejects (s c b : pyval) (st : state) :
  if convert_valid s c b
  then snd (convert s c b st) = Returned tt
       /\ output_format (self (fst (convert s c b st)))
          = output_format (self st)
              ++ (if is_None b then [] else ["-b"; py_str b])
              ++ (if is_None c then [] else ["-c"; py_str c])
       /\ effects (self (fst (convert s c b st)))
          = effects (self st)
              ++ (if is_None s then [] else ["rate"; "-h"; py_str s])
       /\ effects_log (self (fst (convert s c b st)))
          = effects_log (self st) ++ (if is_None s then [] else ["rate"])
  else exists msg, snd (convert s c b st) = Raised (ValueError msg).
Proof.
  unfold convert_valid, convert, rate.
  rewrite rate_quality_default_ok.
  destruct (is_None b); cbn [orb andb negb];
    [|destruct (py_in b [VInt 8; VInt 16; VInt 24; VInt 32; VInt 64]);
      cbn [orb andb negb]; [|eexists; reflexivity]];
    (destruct (is_None c); cbn [orb andb negb];
     [|destruct (isinstance_int c); cbn [orb andb negb];
       [|eexists; reflexivity];
       destruct (py_le c (VInt 0)); cbn [orb andb negb];
       [eexists; reflexivity|]]);
    (destruct (is_None s); cbn [orb andb negb];
     [|destruct (is_number s); cbn [orb andb negb];
       [|eexists; reflexivity];
       destruct (py_le s (VInt 0)); cbn [orb andb negb];
       [eexists; reflexivity|]]);
    run; rewrite ?app_nil_r, <- ?app_assoc; repeat split; reflexivity.
Qed.

(** A [convert] call that raises has written, at most, format tokens. *)
Lemma convert_raise_keeps_effects (s c b : pyval) (st st' : state) (e : exn) :
  convert s c b st = (st', Raised e) ->
  effects (self st') = effects (self st)
  /\ effects_log (self st') = effects_log (self st)
  /\ globals (self st') = globals (self st)
  /\ input_format (self st') = input_format (self st)
  /\ (exists written, output_format (self st') = output_format (self st) ++ written)
  /\ trace st' = trace st
  /\ exists msg, e = ValueError msg.
Proof.
  unfold convert, rate.
  destruct (is_None b); cbn [negb];
    [|destruct (py_in b [VInt 8; VInt 16; VInt 24; VInt 32; VInt 64]);
      cbn [negb]];
    (destruct (is_None c); cbn [negb];
     [|destruct (negb (isinstance_int c) || py_le c (VInt 0))]);
    (destruct (is_None s); cbn [negb];
     [|destruct (negb (is_number s) || py_le s (VInt 0));
       [|destruct (negb (py_in rate_quality_default
                           [VStr "q"; VStr "l"; VStr "m"; VStr "h"; VStr "v"]))]]);
    run; intros H; inversion H; subst; clear H;
    cbn [self trace effects effects_log globals input_format output_format];
    repeat split;
    try (eexists; reflexivity);
    try (exists []; now rewrite app_nil_r);
    try (eexists; rewrite <- app_assoc; reflexivity).
Qed.

(** X7: however a [convert] call fails, it raises [ValueError] and has
    left the effects, the effect log, the global tokens, the input format
    and the trace untouched; the output format may have grown, but only
    at its end. *)
Theorem convert_failure_spares_effects (s c b : pyval) (st st' : state)
    (e : exn) :
  convert s c b st = (st', Raised e) ->
  effects (self st') = effects (self st)
  /\ effects_log (self st') = effects_log (self st)
  /\ globals (self st') = globals (self st)
  /\ input_format (self st') = input_format (self st)
  /\ prefix (output_format (self st)) (output_format (self st'))
  /\ trace st' = trace st
  /\ exists msg, e = ValueError msg.
Proof.
  intros H.
  destruct (convert_raise_keeps_effects s c b st st' e H)
    as (H1 & H2 & H3 & H4 & H5 & H6 & H7).
  repeat split; assumption.
Qed.

Lemma convert_failure_spares_effects_witness :
  effects (self (mkState (with_output_format (self fresh) ["-b"; "16"])
                   (trace fresh)))
  = effects (self fresh)
  /\ effects_log (self (mkState (with_output_format (self fresh) ["-b"; "16"])
                          (trace fresh)))
     = effects_log (self fresh)
  /\ globals (self (mkState (with_output_format (self fresh) ["-b"; "16"])
                      (trace fresh)))
     = globals (self fresh)
  /\ input_format (self (mkState (with_output_format (self fresh) ["-b"; "16"])
                           (trace fresh)))
     = input_format (self fresh)
  /\ prefix (output_format (self fresh))
       (output_format (self (mkState (with_output_format (self fresh)
                                        ["-b"; "16"])
                               (trace fresh))))
  /\ trace (mkState (with_output_format (self fresh) ["-b"; "16"]) (trace fresh))
     = trace fresh
  /\ exists msg, ValueError "samplerate must be a positive number."
                 = ValueError msg.
Proof.
  apply (convert_failure_spares_effects (VInt (-1)) VNone (VInt 16) fresh).
  reflexivity.
Defined.

(** ** Relations every step of a method maintains *)

Definition is_set_globals (c : call) : bool :=
  match c with Call_set_globals _ _ _ _ _ => true | _ => false end.

Definition is_build (c : call) : bool :=
  match c with Call_build => true | _ => false end.

Definition is_convert (c : call) : bool :=
  match c with Call_convert _ _ _ => true | _ => false end.

Section Maintains.

(** [R] relates the state before a step to the state after it. *)
Variable R : state -> state -> Prop.
Hypothesis R_refl : forall st, R st st.
Hypothesis R_trans : forall s1 s2 s3, R s1 s2 -> R s2 s3 -> R s1 s3.

Definition maintains {A} (m : M A) : Prop := forall st, R st (fst (m st)).

Lemma maintains_ret A (a : A) : maintains (ret a).
Proof using R_refl. intros st. apply R_refl. Qed.

Lemma maintains_raise A (e : exn) : maintains (@raise A e).
Proof using R_refl. intros st. apply R_refl. Qed.

Lemma maintains_get : maintains get.
Proof using R_refl. intros st. apply R_refl. Qed.

Lemma maintains_evaluate A (r : exn + A) : maintains (evaluate r).
Proof using R_refl. intros st. destruct r; apply R_refl. Qed.

Lemma maintains_when (c : bool) (body : M unit) :
  maintains body -> maintains (when c body).
Proof using R_refl. intros H st. destruct c; [apply H | apply R_refl]. Qed.

Lemma maintains_bind A B (m : M A) (k : A -> M B) :
  maintains m -> (forall a, maintains (k a)) -> maintains (bind m k).
Proof using R_trans.
  intros Hm Hk st. unfold bind. specialize (Hm st).
  destruct (m st) as [st1 [a|e]]; cbn [fst] in *; [|exact Hm].
  eapply R_trans; [exact Hm | apply Hk].
Qed.

(** What the body of a method is made of: the four attribute writes and
    the three kinds of event. *)
Variable sox : list string -> bool.
Variable c : call.
Hypothesis H_effects : forall args, maintains (effects_extend args).
Hypothesis H_log : forall name, maintains (effects_log_append name).
Hypothesis H_warning : forall msg, maintains (emit (LogWarning msg)).
Hypothesis H_output_format :
  is_convert c = true -> forall args, maintains (output_format_extend args).
Hypothesis H_globals :
  is_set_globals c = true -> forall args, maintains (assign_globals args).
Hypothesis H_engine :
  is_build c = true ->
  (forall args, maintains (emit (SoxCall args)))
  /\ (forall msg, maintains (emit (LogInfo msg))).

Ltac maintaining :=
  cbv zeta;
  repeat first
    [ apply H_effects
    | apply H_log
    | apply H_warning
    | match goal with
      | H : forall args, maintains (output_format_extend args) |- _ => apply H
      | H : forall args, maintains (assign_globals args) |- _ => apply H
      | H : forall args, maintains (emit (SoxCall args)) |- _ => apply H
      | H : forall msg, maintains (emit (LogInfo msg)) |- _ => apply H
      end
    | apply maintains_ret
    | apply maintains_raise
    | apply maintains_get
    | apply maintains_evaluate
    | apply maintains_when
    | apply maintains_bind; [|intros ?]
    | match goal with
      | |- maintains (if ?b then _ else _) => destruct b
      end ].

(** A relation that every write and every event of a call maintains is
    maintained by the call. *)
Lemma invoke_maintains : maintains (invoke sox c).
Proof using All.
  destruct c; cbn [invoke].
  - pose proof (H_globals eq_refl) as Hg.
    unfold set_globals. maintaining.
  - destruct (H_engine eq_refl) as [Hcall Hinfo].
    unfold build, call_sox. maintaining.
  - unfold compand. maintaining.
  - pose proof (H_output_format eq_refl) as Ho.
    unfold convert, rate. maintaining.
  - unfold fade. maintaining.
  - unfold gain. maintaining.
  - unfold loudness. maintaining.
  - unfold norm. maintaining.
  - unfold pad. maintaining.
  - unfold rate. maintaining.
  - unfold silence. maintaining.
  - unfold trim. maintaining.
  - apply maintains_raise.
Qed.

End Maintains.

Lemma invoke_all_maintains (R : state -> state -> Prop)
    (sox : list string -> bool) :
  (forall st, R st st) ->
  (forall s1 s2 s3, R s1 s2 -> R s2 s3 -> R s1 s3) ->
  (forall c, maintains R (invoke sox c)) ->
  forall cs st, R st (invoke_all sox cs st).
Proof.
  intros Hrefl Htrans Hstep. induction cs as [|c cs IH]; intros st;
    cbn [invoke_all]; [apply Hrefl|].
  eapply Htrans; [apply (Hstep c st) | apply IH].
Qed.

(** ** What no call touches *)

(** The input path, the output path and the input format are equal. *)
Definition same_source (st st' : state) : Prop :=
  input_filepath (self st') = input_filepath (self st)
  /\ output_filepath (self st') = output_filepath (self st)
  /\ input_format (self st') = input_format (self st).

Lemma same_source_refl (st : state) : same_source st st.
Proof. repeat split. Qed.

Lemma same_source_trans (s1 s2 s3 : state) :
  same_source s1 s2 -> same_source s2 s3 -> same_source s1 s3.
Proof.
  intros (H1 & H2 & H3) (K1 & K2 & K3).
  repeat split; congruence.
Qed.

Lemma invoke_same_source (sox : list string -> bool) (c : call) :
  maintains same_source (invoke sox c).
Proof.
  apply (invoke_maintains same_source same_source_refl same_source_trans);
    try (intros; split);
    unfold maintains; intros; repeat split.
Qed.

(** X8: no method writes the input path, the output path or the input
    format: after any sequence of calls, returning or raising, the three
    are what they were; in particular the input format of a builder that
    started empty is still empty. *)
Theorem paths_and_input_format_never_change (sox : list string -> bool)
    (cs : list call) (st : state) :
  input_filepath (self (invoke_all sox cs st)) = input_filepath (self st)
  /\ output_filepath (self (invoke_all sox cs st)) = output_filepath (self st)
  /\ input_format (self (invoke_all sox cs st)) = input_format (self st).
Proof.
  apply (invoke_all_maintains same_source sox same_source_refl
           same_source_trans (invoke_same_source sox)).
Qed.

(** ** Who writes the output format and the globals *)

Definition same_output_format (st st' : state) : Prop :=
  output_format (self st') = output_format (self st).

Definition same_globals (st st' : state) : Prop :=
  globals (self st') = globals (self st).

Definition output_format_grows (st st' : state) : Prop :=
  prefix (output_format (self st)) (output_format (self st')).

Lemma invoke_same_output_format (sox : list string -> bool) (c : call) :
  is_convert c = false -> maintains same_output_format (invoke sox c).
Proof.
  intros Hc. apply invoke_maintains; unfold same_output_format, maintains;
    try congruence; try (intros; split); intros; reflexivity.
Qed.

Lemma invoke_same_globals (sox : list string -> bool) (c : call) :
  is_set_globals c = false -> maintains same_globals (invoke sox c).
Proof.
  intros Hc. apply invoke_maintains; unfold same_globals, maintains;
    try congruence; try (intros; split); intros; reflexivity.
Qed.

Lemma invoke_output_format_grows (sox : list string -> bool) (c : call) :
  maintains output_format_grows (invoke sox c).
Proof.
  apply invoke_maintains; unfold output_format_grows, maintains;
    try (intros; split); intros;
    eauto using prefix_refl, prefix_trans;
    first [apply prefix_refl | now eexists].
Qed.

(** X9: a call other than [convert] leaves the output format as it was,
    and a call other than [set_globals] leaves the global tokens as they
    were, whether it returns or raises; across any sequence of calls the
    output format only grows at its end. *)
Theorem format_and_globals_writers (sox : list string -> bool) :
  (forall (c : call) (st : state),
      is_convert c = false ->
      output_format (self (fst (invoke sox c st))) = output_format (self st))
  /\ (forall (c : call) (st : state),
      is_set_globals c = false ->
      globals (self (fst (invoke sox c st))) = globals (self st))
  /\ (forall (cs : list call) (st : state),
      prefix (output_format (self st))
        (output_format (self (invoke_all sox cs st)))).
Proof.
  split; [|split].
  - intros c st Hc. exact (invoke_same_output_format sox c Hc st).
  - intros c st Hc. exact (invoke_same_globals sox c Hc st).
  - intros cs st.
    apply (invoke_all_maintains output_format_grows sox).
    + intros s. apply prefix_refl.
    + intros s1 s2 s3. apply prefix_trans.
    + apply invoke_output_format_grows.
Qed.

Lemma format_and_globals_writers_witness :
  output_format (self (fst (invoke (fun _ => true)
                              (Call_gain (VInt 3) (VBool true) (VBool false) VNone)
                              fresh)))
  = output_format (self fresh)
  /\ globals (self (fst (invoke (fun _ => true)
                           (Call_convert VNone (VInt 2) (VInt 16)) fresh)))
     = globals (self fresh).
Proof.
  split.
  - apply (proj1 (format_and_globals_writers (fun _ => true))). reflexivity.
  - apply (proj1 (proj2 (format_and_globals_writers (fun _ => true)))).
    reflexivity.
Defined.

(** ** The engine is invoked by [build] alone *)

Definition same_engine_calls (st st' : state) : Prop :=
  sox_calls (trace st') = sox_calls (trace st).

Lemma invoke_same_engine_calls (sox : list string -> bool) (c : call) :
  is_build c = false -> maintains same_engine_calls (invoke sox c).
Proof.
  intros Hc. apply invoke_maintains; unfold same_engine_calls, maintains;
    try congruence; try (intros; split); intros;
    try reflexivity.
  cbn [emit fst trace]. rewrite sox_calls_app. apply app_nil_r.
Qed.

Lemma build_engine_calls (sox : list string -> bool) (st : state) :
  sox_calls (trace (fst (build sox st)))
  = sox_calls (trace st) ++ [assembled (self st)].
Proof.
  assert (Hargs :
    ((((([] ++ globals (self st)) ++ input_format (self st))
         ++ [input_filepath (self st)]) ++ output_format (self st))
       ++ [output_filepath (self st)]) ++ effects (self st)
    = assembled (self st)).
  { unfold assembled. now rewrite <- !app_assoc. }
  unfold build. run. rewrite Hargs.
  destruct (sox (assembled (self st))); cbn [fst trace];
    rewrite !sox_calls_app; cbn [sox_calls]; now rewrite ?app_nil_r.
Qed.

Definition count_builds (cs : list call) : nat :=
  List.length (filter is_build cs).

(** X10: only [build] reaches the engine: any other call, returning or
    raising, leaves the list of engine invocations as it was, and after a
    sequence of calls the engine has been invoked once for each [build]
    in the sequence, no more and no less. *)
Theorem engine_invoked_once_per_build (sox : list string -> bool) :
  (forall (c : call) (st : state),
      is_build c = false ->
      sox_calls (trace (fst (invoke sox c st))) = sox_calls (trace st))
  /\ (forall (cs : list call) (st : state),
      List.length (sox_calls (trace (invoke_all sox cs st)))
      = (List.length (sox_calls (trace st)) + count_builds cs)%nat).
Proof.
  split.
  - intros c st Hc. exact (invoke_same_engine_calls sox c Hc st).
  - unfold count_builds.
    induction cs as [|c cs IH]; intros st; cbn [invoke_all filter];
      [cbn [List.length]; lia|].
    rewrite IH. destruct (is_build c) eqn:Hc; cbn [List.length].
    + destruct c; try discriminate. cbn [invoke].
      assert (Hstep :
        fst (bind (build sox) (fun _ => ret tt) st) = fst (build sox st)).
      { unfold bind, ret. now destruct (build sox st) as [st1 []]. }
      rewrite Hstep, build_engine_calls, length_app. cbn [List.length]. lia.
    + now rewrite (invoke_same_engine_calls sox c Hc st).
Qed.

Lemma engine_invoked_once_per_build_witness :
  sox_calls (trace (fst (invoke (fun _ => false)
                           (Call_trim (VInt 1) (VInt 2)) fresh)))
  = sox_calls (trace fresh).
Proof.
  apply (proj1 (engine_invoked_once_per_build (fun _ => false))). reflexivity.
Defined.

(** ** The log and the effects move together *)

Definition untouched (st st' : state) : Prop :=
  effects (self st') = effects (self st)
  /\ effects_log (self st') = effects_log (self st).

Definition recorded (st st' : state) : Prop :=
  exists tokens name,
    tokens <> []
    /\ effects (self st') = effects (self st) ++ tokens
    /\ effects_log (self st') = effects_log (self st) ++ [name].

Definition coupled (st st' : state) : Prop :=
  untouched st st' \/ recorded st st'.

Definition step {A} (m : M A) : Prop := forall st, coupled st (fst (m st)).

Lemma untouched_refl (st : state) : untouched st st.
Proof. split; reflexivity. Qed.

Lemma untouched_trans (s1 s2 s3 : state) :
  untouched s1 s2 -> untouched s2 s3 -> untouched s1 s3.
Proof. intros [H1 H2] [K1 K2]. split; congruence. Qed.

Lemma step_untouched A (m : M A) : maintains untouched m -> step m.
Proof. intros H st. left. apply H. Qed.

Lemma step_bind A B (m : M A) (k : A -> M B) :
  maintains untouched m -> (forall a, step (k a)) -> step (bind m k).
Proof.
  intros Hm Hk st. unfold bind. specialize (Hm st).
  destruct (m st) as [st1 [a|e]]; cbn [fst] in *; [|now left].
  destruct Hm as [He Hl].
  destruct (Hk a st1) as [[He' Hl'] | (tokens & name & Hne & He' & Hl')].
  - left. split; congruence.
  - right. exists tokens, name. rewrite <- He, <- Hl. auto.
Qed.

Lemma step_when (c : bool) (body : M unit) : step body -> step (when c body).
Proof.
  intros H st. destruct c; [apply H | left; apply untouched_refl].
Qed.

Lemma step_record (args : list string) (name : string) :
  args <> [] ->
  step (bind (effects_extend args) (fun _ => effects_log_append name)).
Proof.
  intros Hne st. right. exists args, name. repeat split. exact Hne.
Qed.

Lemma step_record_if_any (args : list string) (name : string) :
  step (when (0 <? List.length args)%nat
          (bind (effects_extend args) (fun _ => effects_log_append name))).
Proof.
  destruct args as [|x args].
  - intros st. left. apply untouched_refl.
  - apply step_record. discriminate.
Qed.

(** The checks that precede the writes of a method leave the effects and
    the log alone. *)
Ltac checking :=
  cbv zeta;
  repeat first
    [ match goal with
      | H : forall x, maintains untouched _ |- _ => apply H
      end
    | apply (maintains_ret untouched untouched_refl)
    | apply (maintains_raise untouched untouched_refl)
    | apply (maintains_get untouched untouched_refl)
    | apply (maintains_evaluate untouched untouched_refl)
    | apply (maintains_when untouched untouched_refl)
    | apply (maintains_bind untouched untouched_trans); [|intros ?]
    | match goal with
      | |- maintains untouched (if ?b then _ else _) => destruct b
      end ].

Ltac stepping :=
  cbv zeta;
  repeat (apply step_bind; [solve [checking] | intros ?]).

Ltac nonempty :=
  repeat match goal with
    | |- context [if ?b then _ else _] => destruct b
    end;
  cbn [app]; discriminate.

Lemma rate_step (s q : pyval) : step (rate s q).
Proof. unfold rate. stepping. apply step_record. discriminate. Qed.

Lemma invoke_step (sox : list string -> bool) (c : call) :
  step (invoke sox c).
Proof.
  assert (Hwarn : forall msg, maintains untouched (emit (LogWarning msg)))
    by (intros msg st; split; reflexivity).
  assert (Hinfo : forall msg, maintains untouched (emit (LogInfo msg)))
    by (intros msg st; split; reflexivity).
  assert (Hcall : forall args, maintains untouched (emit (SoxCall args)))
    by (intros args st; split; reflexivity).
  assert (Hout : forall args, maintains untouched (output_format_extend args))
    by (intros args st; split; reflexivity).
  assert (Hglob : forall args, maintains untouched (assign_globals args))
    by (intros args st; split; reflexivity).
  destruct c; cbn [invoke].
  - apply step_untouched. unfold set_globals. checking.
  - apply step_untouched. unfold build, call_sox. checking.
  - unfold compand. stepping. apply step_record. nonempty.
  - unfold convert. stepping. apply step_when. stepping.
    cbv zeta. apply step_record. discriminate.
  - unfold fade. stepping. apply step_record_if_any.
  - unfold gain. stepping. apply step_record. nonempty.
  - unfold loudness. stepping. apply step_record. discriminate.
  - unfold norm. stepping. apply step_record. discriminate.
  - unfold pad. stepping. apply step_record. discriminate.
  - apply rate_step.
  - unfold silence. stepping. apply step_record. nonempty.
  - unfold trim. stepping. apply step_record. discriminate.
  - apply step_untouched. apply (maintains_raise untouched untouched_refl).
Qed.

(** X11: a call either leaves both the effects and the effect log as
    they were, or appends at least one token to the effects and exactly
    one name to the log; it never does one without the other. *)
Theorem log_entry_iff_tokens (sox : list string -> bool) (c : call)
    (st : state) :
  (effects (self (fst (invoke sox c st))) = effects (self st)
   /\ effects_log (self (fst (invoke sox c st))) = effects_log (self st))
  \/ (exists tokens name,
         tokens <> []
         /\ effects (self (fst (invoke sox c st))) = effects (self st) ++ tokens
         /\ effects_log (self (fst (invoke sox c st)))
            = effects_log (self st) ++ [name]).
Proof. exact (invoke_step sox c st). Qed.

(** X12: across any sequence of calls the effect log only grows at its
    end, it gains at most one entry per call, and it gains no more
    entries than the effects gain tokens. *)
Theorem log_bounded_by_calls_and_tokens (sox : list string -> bool)
    (cs : list call) (st : state) :
  prefix (effects_log (self st)) (effects_log (self (invoke_all sox cs st)))
  /\ (List.length (effects_log (self (invoke_all sox cs st)))
      <= List.length (effects_log (self st)) + List.length cs)%nat
  /\ (List.length (effects_log (self (invoke_all sox cs st)))
        + List.length (effects (self st))
      <= List.length (effects_log (self st))
         + List.length (effects (self (invoke_all sox cs st))))%nat.
Proof.
  revert st. induction cs as [|c cs IH]; intros st; cbn [invoke_all].
  - split; [apply prefix_refl | cbn [List.length]; lia].
  - destruct (IH (fst (invoke sox c st))) as (Hp & Hn & Ht).
    destruct (invoke_step sox c st)
      as [[He Hl] | (tokens & name & Hne & He & Hl)].
    + rewrite He, Hl in *. cbn [List.length]. repeat split; [assumption|lia..].
    + rewrite He, Hl in *. rewrite !length_app in *. cbn [List.length] in *.
      assert (1 <= List.length tokens)%nat
        by (destruct tokens; [contradiction | cbn [List.length]; lia]).
      repeat split; [|lia..].
      eapply prefix_trans; [|exact Hp]. now eexists.
Qed.

(** ** Which exception, and what is left behind *)

Definition is_ValueError (e : exn) : Prop := exists msg, e = ValueError msg.

Definition is_OverflowError (e : exn) : Prop := exists msg, e = OverflowError msg.

Lemma raises_only_evaluate A (P : exn -> Prop) (r : exn + A) :
  (forall e, r = inl e -> P e) -> raises_only P (evaluate r).
Proof.
  intros H st st' e. destruct r as [e0|a]; cbn [evaluate].
  - intros Heq. injection Heq as _ <-. now apply H.
  - discriminate.
Qed.

Ltac raising :=
  cbv zeta;
  repeat first
    [ apply raises_only_total; solve [never_raises]
    | apply raises_only_bind; [|intros ?]
    | apply raises_only_when
    | apply raises_only_raise;
      first [ reflexivity | eexists; reflexivity
            | left; eexists; reflexivity | right; eexists; reflexivity ]
    | match goal with |- raises_only _ (if ?c then _ else _) => destruct c end ].

Lemma set_globals_raises_ValueError (d g m r v : pyval) :
  raises_only is_ValueError (set_globals d g m r v).
Proof. unfold set_globals. raising. Qed.

Lemma fade_raises_ValueError (i o sh : pyval) :
  raises_only is_ValueError (fade i o sh).
Proof. unfold fade. raising. Qed.

Lemma gain_raises_ValueError (g n l b : pyval) :
  raises_only is_ValueError (gain g n l b).
Proof. unfold gain. raising. Qed.

Lemma loudness_raises_ValueError (g r : pyval) :
  raises_only is_ValueError (loudness g r).
Proof. unfold loudness. raising. Qed.

Lemma norm_raises_ValueError (d : pyval) : raises_only is_ValueError (norm d).
Proof. unfold norm. raising. Qed.

Lemma pad_raises_ValueError (s e : pyval) : raises_only is_ValueError (pad s e).
Proof. unfold pad. raising. Qed.

Lemma rate_raises_ValueError (s q : pyval) :
  raises_only is_ValueError (rate s q).
Proof. unfold rate. raising. Qed.

Lemma silence_raises_ValueError (l t m b : pyval) :
  raises_only is_ValueError (silence l t m b).
Proof. unfold silence. raising. Qed.

Lemma compand_raises_Value_or_TypeError (a d k tf : pyval) :
  raises_only (fun e => is_ValueError e \/ exists msg, e = TypeError msg)
    (compand a d k tf).
Proof. unfold compand. raising. Qed.

Lemma build_raises_SoxError (sox : list string -> bool) :
  raises_only (fun e => e = SoxError) (build sox).
Proof. unfold build, call_sox. raising. Qed.

(** Subtracting two numbers can only fail by overflow. *)
Lemma py_sub_numbers (a b : pyval) (e : exn) :
  is_number a = true -> is_number b = true ->
  py_sub a b = inl e -> is_OverflowError e.
Proof.
  unfold py_sub, as_float, as_int, int_to_float, is_OverflowError.
  destruct a; try discriminate; destruct b; try discriminate; intros _ _;
    repeat match goal with
      | |- context [match binary_normalize ?p ?q ?z ?x ?y with _ => _ end] =>
          destruct (binary_normalize p q z x y)
      end;
    intros H; inversion H; eexists; reflexivity.
Qed.

Lemma trim_raises_Value_or_OverflowError (s e : pyval) :
  raises_only (fun x => is_ValueError x \/ is_OverflowError x) (trim s e).
Proof.
  assert (Hcheck : forall (msg : string) (k : unit -> M unit) st st' x,
    bind (when true (raise (ValueError msg))) k st = (st', Raised x) ->
    is_ValueError x \/ is_OverflowError x).
  { intros msg k st st' x H. rewrite bind_when_raise in H.
    injection H as _ <-. left. now exists msg. }
  intros st st' x. unfold trim.
  destruct (is_number s) eqn:Hs; cbn [negb orb]; [|apply Hcheck].
  destruct (py_lt s (VInt 0)); [apply Hcheck | rewrite bind_when_false].
  destruct (is_number e) eqn:He; cbn [negb orb]; [|apply Hcheck].
  destruct (py_lt e (VInt 0)); [apply Hcheck | rewrite bind_when_false].
  destruct (py_ge s e); [apply Hcheck | rewrite bind_when_false].
  destruct (py_sub e s) as [x0|d] eqn:Hsub; run; intros H.
  - injection H as _ <-. right. exact (py_sub_numbers e s x0 He Hs Hsub).
  - discriminate.
Qed.

(** X13: the exceptions a call can raise, by method: [build] raises
    nothing but [SoxError]; an unimplemented effect nothing but
    [NotImplementedError]; [compand] a [ValueError] or a [TypeError];
    [trim] a [ValueError] or an [OverflowError]; [set_globals] and every
    other implemented effect nothing but [ValueError]. *)
Theorem exceptions_by_method (sox : list string -> bool) (c : call)
    (st st' : state) (e : exn) :
  invoke sox c st = (st', Raised e) ->
  match c with
  | Call_build => e = SoxError
  | Call_stub _ => e = NotImplementedError
  | Call_compand _ _ _ _ => is_ValueError e \/ exists msg, e = TypeError msg
  | Call_trim _ _ => is_ValueError e \/ is_OverflowError e
  | _ => is_ValueError e
  end.
Proof.
  destruct c; cbn [invoke]; intros H.
  - exact (set_globals_raises_ValueError _ _ _ _ _ st st' e H).
  - unfold bind in H. destruct (build sox st) as [st1 [a|e1]] eqn:Hb.
    + discriminate.
    + injection H as _ <-. exact (build_raises_SoxError sox st st1 e1 Hb).
  - exact (compand_raises_Value_or_TypeError _ _ _ _ st st' e H).
  - now destruct (convert_raise_keeps_effects _ _ _ st st' e H)
      as (_ & _ & _ & _ & _ & _ & Hv).
  - exact (fade_raises_ValueError _ _ _ st st' e H).
  - exact (gain_raises_ValueError _ _ _ _ st st' e H).
  - exact (loudness_raises_ValueError _ _ st st' e H).
  - exact (norm_raises_ValueError _ st st' e H).
  - exact (pad_raises_ValueError _ _ st st' e H).
  - exact (rate_raises_ValueError _ _ st st' e H).
  - exact (silence_raises_ValueError _ _ _ _ st st' e H).
  - exact (trim_raises_Value_or_OverflowError _ _ st st' e H).
  - now injection H as _ <-.
Qed.

Lemma exceptions_by_method_witness :
  is_ValueError (ValueError "tf_points must have at least one point.")
  \/ exists msg, ValueError "tf_points must have at least one point."
                 = TypeError msg.
Proof.
  apply (exceptions_by_method (fun _ => true)
           (Call_compand (VFloat 0.3) (VFloat 0.8) VNone (VList []))
           fresh fresh).
  reflexivity.
Defined.

(** X14: a call that raises has appended nothing to the effects and
    nothing to the effect log; unless the call is [convert], it has left
    every attribute of the builder as it was. *)
Theorem raising_call_leaves_builder (sox : list string -> bool) (c : call)
    (st st' : state) (e : exn) :
  invoke sox c st = (st', Raised e) ->
  effects (self st') = effects (self st)
  /\ effects_log (self st') = effects_log (self st)
  /\ (is_convert c = false -> self st' = self st).
Proof.
  intros H.
  destruct (is_convert c) eqn:Hc.
  - destruct c; try discriminate. cbn [invoke] in H.
    destruct (convert_raise_keeps_effects _ _ _ st st' e H) as (He & Hl & _).
    repeat split; try assumption. discriminate.
  - assert (Hself : self st' = self st).
    { apply (invoke_atomic sox c) with (e := e); [|exact H].
      intros s ch b ->. discriminate. }
    rewrite Hself. repeat split.
Qed.

Lemma raising_call_leaves_builder_witness :
  effects (self fresh) = effects (self fresh)
  /\ effects_log (self fresh) = effects_log (self fresh)
  /\ (is_convert (Call_silence (VInt 2) (VFloat 0.1) (VFloat 0.1) (VBool false))
      = false ->
      self fresh = self fresh).
Proof.
  apply (raising_call_leaves_builder (fun _ => true)
           (Call_silence (VInt 2) (VFloat 0.1) (VFloat 0.1) (VBool false))
           fresh fresh (ValueError "location must be one of -1, 0, 1.")).
  reflexivity.
Defined.

(** ** Construction, then [build] *)

(** X15: when the input path fails its check the constructor raises that
    exception, and when it passes and the output path fails, that one; if
    both pass, a [build] right after construction hands the engine
    exactly [-D -V2 <input> <output>]. *)
Theorem construction_then_build
    (validate_input_file validate_output_file : string -> option exn)
    (sox : list string -> bool) (input output : string) (st : state) :
  (forall e, validate_input_file input = Some e ->
             init validate_input_file validate_output_file input output st
             = (st, Raised e))
  /\ (forall e, validate_input_file input = None ->
                validate_output_file output = Some e ->
                init validate_input_file validate_output_file input output st
                = (st, Raised e))
  /\ (validate_input_file input = None ->
      validate_output_file output = None ->
      sox_calls
        (trace (fst (bind (init validate_input_file validate_output_file
                             input output)
                       (fun _ => build sox) st)))
      = sox_calls (trace st) ++ [["-D"; "-V2"; input; output]]).
Proof.
  split; [|split].
  - intros e Hin. unfold init. now rewrite Hin.
  - intros e Hin Hout. unfold init. now rewrite Hin, Hout.
  - intros Hin Hout. unfold bind at 1.
    rewrite (init_fresh validate_input_file validate_output_file input output
               st Hin Hout).
    rewrite build_engine_calls. reflexivity.
Qed.

Lemma construction_then_build_witness :
  (init (fun _ => Some (ValueError "no such file")) (fun _ => None)
     "a.wav" "b.wav" fresh
   = (fresh, Raised (ValueError "no such file")))
  /\ sox_calls
       (trace (fst (bind (init (fun _ => None) (fun _ => None) "a.wav" "b.wav")
                      (fun _ => build (fun _ => true)) fresh)))
     = sox_calls (trace fresh) ++ [["-D"; "-V2"; "a.wav"; "b.wav"]].
Proof.
  split.
  - apply (proj1 (construction_then_build
                    (fun _ => Some (ValueError "no such file")) (fun _ => None)
                    (fun _ => true) "a.wav" "b.wav" fresh)).
    reflexivity.
  - apply (proj2 (proj2 (construction_then_build
                           (fun _ => None) (fun _ => None)
                           (fun _ => true) "a.wav" "b.wav" fresh)));
      reflexivity.
Defined.

(** ** [set_globals] on any arguments *)

Definition set_globals_valid (d g m r v : pyval) : bool :=
  isinstance_bool d && isinstance_bool g && isinstance_bool m
  && isinstance_bool r && py_in v VERBOSITY_VALS.

(** The tokens [set_globals] assigns. *)
Definition global_args (d g m r v : pyval) : list string :=
  (if truthy d then [] else ["-D"])
    ++ (if truthy g then ["-G"] else [])
    ++ (if truthy m then ["--multi-threaded"] else [])
    ++ (if truthy r then ["--replay-gain"; "track"] else [])
    ++ [("-V" ++ py_str v)%string].

Lemma set_globals_run (d g m r v : pyval) (st : state) :
  if set_globals_valid d g m r v
  then set_globals d g m r v st
       = (mkState (with_globals (self st) (global_args d g m r v)) (trace st),
          Returned tt)
  else exists msg, set_globals d g m r v st = (st, Raised (ValueError msg)).
Proof.
  unfold set_globals_valid, set_globals, global_args.
  destruct (isinstance_bool d); cbn [andb negb]; [|eexists; reflexivity].
  destruct (isinstance_bool g); cbn [andb negb]; [|eexists; reflexivity].
  destruct (isinstance_bool m); cbn [andb negb]; [|eexists; reflexivity].
  destruct (isinstance_bool r); cbn [andb negb]; [|eexists; reflexivity].
  destruct (py_in v VERBOSITY_VALS); cbn [andb negb]; [|eexists; reflexivity].
  run. destruct (truthy d), (truthy g), (truthy m), (truthy r); reflexivity.
Qed.

(** X16: [set_globals] returns exactly when its four flags are booleans
    and the verbosity is [==] to one of 0, 1, 2, 3, 4; it then replaces
    the global tokens by the flags' tokens followed by [-V] and the
    rendering of the verbosity as it was passed.  Otherwise it raises
    [ValueError] and the state, global tokens included, is as before. *)
Theorem set_globals_replaces_or_rejects (d g m r v : pyval) (st : state) :
  if set_globals_valid d g m r v
  then set_globals d g m r v st
       = (mkState
            (with_globals (self st)
               ((if truthy d then [] else ["-D"])
                  ++ (if truthy g then ["-G"] else [])
                  ++ (if truthy m then ["--multi-threaded"] else [])
                  ++ (if truthy r then ["--replay-gain"; "track"] else [])
                  ++ [("-V" ++ py_str v)%string]))
            (trace st),
          Returned tt)
  else exists msg, set_globals d g m r v st = (st, Raised (ValueError msg)).
Proof. exact (set_globals_run d g m r v st). Qed.

(** ** The global tokens are never empty *)

Definition globals_stay_nonempty (st st' : state) : Prop :=
  globals (self st) <> [] -> globals (self st') <> [].

Lemma invoke_globals_stay_nonempty (sox : list string -> bool) (c : call) :
  maintains globals_stay_nonempty (invoke sox c).
Proof.
  intros st Hne. destruct (is_set_globals c) eqn:Hc.
  - destruct c; try discriminate. cbn [invoke].
    pose proof (set_globals_run dither0 guard multithread replay_gain
                  verbosity st) as Hrun.
    destruct (set_globals_valid dither0 guard multithread replay_gain
                verbosity).
    + rewrite Hrun. cbn [fst self with_globals globals]. unfold global_args.
      intros Heq. repeat (apply app_eq_nil in Heq as [_ Heq]). discriminate.
    + destruct Hrun as [msg Hrun]. now rewrite Hrun.
  - now rewrite (invoke_same_globals sox c Hc st).
Qed.

(** X17: once the global tokens are non-empty, as they are after
    construction, they are non-empty after every sequence of calls: no
    [set_globals] call, successful or not, leaves them empty, and no
    other method writes them. *)
Theorem globals_never_empty (sox : list string -> bool) (cs : list call)
    (st : state) :
  globals (self st) <> [] ->
  globals (self (invoke_all sox cs st)) <> [].
Proof.
  apply (invoke_all_maintains globals_stay_nonempty sox).
  - intros s H. exact H.
  - intros s1 s2 s3 H12 H23 H. auto.
  - apply invoke_globals_stay_nonempty.
Qed.

Lemma globals_never_empty_witness :
  globals (self (invoke_all (fun _ => true)
                   [Call_set_globals (VBool true) (VBool false) (VBool false)
                      (VBool false) (VInt 0);
                    Call_set_globals (VInt 1) (VBool false) (VBool false)
                      (VBool false) (VInt 0);
                    Call_norm (VInt (-3))]
                   fresh))
  <> [].
Proof.
  apply (globals_never_empty (fun _ => true)). discriminate.
Defined.

(** ** [compand]: the warning, and the order of the points *)

Definition compand_warning : string :=
  "attack_time is larger than decay_time." ++ newline
  ++ "For most situations, attack_time should be shorter than "
  ++ "decay time because the human ear is more sensitive to sudden "
  ++ "loud music than sudden soft music.".

(** The tokens of a [compand] call whose points, in rendering order, are
    [sorted_points]. *)
Definition compand_args (a d k : pyval) (sorted_points : list (pyval * pyval))
  : list string :=
  ["compand";
   (py_str a ++ "," ++ py_str d)%string;
   (if is_None k then join "," (flatten sorted_points)
    else py_str k ++ ":" ++ join "," (flatten sorted_points))%string].

Lemma compand_valid_run (a d k : pyval) (pts sp : list (pyval * pyval))
    (st : state) :
  is_number a = true -> py_gt a (VInt 0) = true ->
  is_number d = true -> py_gt d (VInt 0) = true ->
  is_number k || is_None k = true ->
  pts <> [] ->
  forallb valid_point pts = true ->
  all_distinct (map fst pts) = true ->
  sorted (fun p => getitem p 0) (map point pts) = map point sp ->
  compand a d k (VList (map point pts)) st
  = (mkState (with_effects (self st) (compand_args a d k sp) "compand")
       (if py_gt a d then trace st ++ [LogWarning compand_warning]
        else trace st),
     Returned tt).
Proof.
  intros Ha Hapos Hd Hdpos Hk Hne Hvalid Hdistinct Hsp.
  unfold compand, compand_args. cbn [items len isinstance_list].
  rewrite Ha, Hd, Hk, (py_gt_not_le _ _ Hapos), (py_gt_not_le _ _ Hdpos).
  pose proof (distinct_keeps_all _ Hdistinct) as Hlen.
  rewrite length_map in Hlen.
  rewrite keys_of_points, length_map, Hlen, Hsp.
  rewrite flatten_points.
  rewrite !any_points_false; try exact Hvalid.
  - destruct pts as [|p0 pts]; [contradiction|]. cbn [List.length Nat.eqb].
    run.
    destruct (py_gt a d), (is_None k); reflexivity.
  - intros p Hp. destruct (valid_point_inv p Hp) as (_ & _ & Hx & Hy).
    cbn [point getitem nth].
    now rewrite (py_le_not_gt _ _ Hx), (py_le_not_gt _ _ Hy).
  - intros p Hp. destruct (valid_point_inv p Hp) as (Hx & Hy & _ & _).
    cbn [point getitem nth]. now rewrite Hx, Hy.
  - intros p Hp. reflexivity.
  - intros p Hp. reflexivity.
Qed.

(** X18: on a valid call [compand] logs one warning exactly when the
    attack time is greater than the decay time, and nothing otherwise;
    in both cases it returns: the warning does not make the call fail. *)
Theorem compand_warns_but_proceeds (a d k : pyval)
    (pts : list (pyval * pyval)) (st : state) :
  is_number a = true -> py_gt a (VInt 0) = true ->
  is_number d = true -> py_gt d (VInt 0) = true ->
  is_number k || is_None k = true ->
  pts <> [] ->
  forallb valid_point pts = true ->
  all_distinct (map fst pts) = true ->
  trace (fst (compand a d k (VList (map point pts)) st))
  = (if py_gt a d then trace st ++ [LogWarning compand_warning] else trace st)
  /\ snd (compand a d k (VList (map point pts)) st) = Returned tt.
Proof.
  intros Ha Hapos Hd Hdpos Hk Hne Hvalid Hdistinct.
  destruct (sorted_points pts Hvalid Hdistinct) as (sp & Hsp & _).
  rewrite (compand_valid_run a d k pts sp st Ha Hapos Hd Hdpos Hk Hne Hvalid
             Hdistinct Hsp).
  split; reflexivity.
Qed.

Lemma compand_warns_but_proceeds_witness :
  trace (fst (compand (VInt 2) (VInt 1) VNone
                (VList (map point [(VInt (-10), VInt (-5))])) fresh))
  = (if py_gt (VInt 2) (VInt 1)
     then trace fresh ++ [LogWarning compand_warning] else trace fresh)
  /\ snd (compand (VInt 2) (VInt 1) VNone
            (VList (map point [(VInt (-10), VInt (-5))])) fresh)
     = Returned tt.
Proof.
  apply (compand_warns_but_proceeds (VInt 2) (VInt 1) VNone
           [(VInt (-10), VInt (-5))] fresh);
    try reflexivity.
  discriminate.
Defined.

Lemma strictly_sorted_unique A (lt : A -> A -> Prop) :
  (forall x y, lt x y -> lt y x -> False) ->
  forall l1 l2,
    StronglySorted lt l1 -> StronglySorted lt l2 -> Permutation l1 l2 ->
    l1 = l2.
Proof.
  intros Hasym. induction l1 as [|a l1 IH]; intros l2 H1 H2 Hperm.
  - now apply Permutation_nil in Hperm.
  - destruct l2 as [|b l2];
      [now apply Permutation_sym, Permutation_nil in Hperm|].
    apply StronglySorted_inv in H1 as [H1 Ha].
    apply StronglySorted_inv in H2 as [H2 Hb].
    rewrite Forall_forall in Ha, Hb.
    assert (Hab : a = b).
    { pose proof (Permutation_in a Hperm (or_introl eq_refl)) as Hin_a.
      pose proof (Permutation_in b (Permutation_sym Hperm)
                    (or_introl eq_refl)) as Hin_b.
      destruct Hin_a as [-> | Hin_a]; [reflexivity|].
      destruct Hin_b as [-> | Hin_b]; [reflexivity|].
      exfalso. exact (Hasym a b (Ha b Hin_b) (Hb a Hin_a)). }
    subst b. f_equal. apply IH; try assumption.
    eapply Permutation_cons_inv; eassumption.
Qed.

Lemma py_lt_asym (x y : pyval) : py_lt x y = true -> py_lt y x = true -> False.
Proof.
  unfold py_lt. rewrite (num_compare_antisym x y).
  destruct (num_compare x y) as [[]|]; cbn; discriminate.
Qed.

Lemma py_eq_sym_numeric (x y : pyval) :
  is_numeric x = true -> is_numeric y = true -> py_eq x y = py_eq y x.
Proof.
  intros Hx Hy. rewrite (py_eq_numeric x y Hx Hy), (py_eq_numeric y x Hy Hx).
  rewrite (num_compare_antisym x y).
  destruct (num_compare x y) as [[]|]; reflexivity.
Qed.

Lemma py_in_perm (x : pyval) (l l' : list pyval) :
  Permutation l l' -> py_in x l = py_in x l'.
Proof.
  unfold py_in. induction 1; cbn [existsb]; try congruence.
  rewrite !orb_assoc. f_equal. apply orb_comm.
Qed.

Lemma all_distinct_perm (l l' : list pyval) :
  Permutation l l' ->
  Forall (fun x => is_numeric x = true) l ->
  all_distinct l = true -> all_distinct l' = true.
Proof.
  induction 1 as [|x l l' Hperm IH|x y l|l l' l'' H1 IH1 H2 IH2];
    intros Hnum Hd.
  - exact Hd.
  - cbn [all_distinct] in *. apply andb_true_iff in Hd as [Hx Hd].
    inversion Hnum; subst.
    rewrite <- (py_in_perm x l l' Hperm), Hx. cbn [andb]. now apply IH.
  - cbn [all_distinct] in *. unfold py_in in *. cbn [existsb] in *.
    inversion Hnum as [|? ? Hy Hnum']; subst.
    inversion Hnum' as [|? ? Hx Hnum'']; subst.
    rewrite (py_eq_sym_numeric x y Hx Hy).
    destruct (py_eq y x), (existsb (fun z => py_eq y z) l),
      (existsb (fun z => py_eq x z) l); cbn in *; congruence.
  - apply IH2; [eapply Permutation_Forall; eassumption|]. now apply IH1.
Qed.

Lemma valid_points_perm (pts pts' : list (pyval * pyval)) :
  Permutation pts pts' ->
  forallb valid_point pts = true -> forallb valid_point pts' = true.
Proof.
  intros Hperm H. rewrite forallb_forall in *. intros p Hp.
  apply H. eapply Permutation_in; [apply Permutation_sym|]; eassumption.
Qed.

(** X19: the order in which the points of [tf_points] are given does not
    matter: on a valid call, passing the same points in any other order
    leaves exactly the same state and returns. *)
Theorem compand_order_irrelevant (a d k : pyval)
    (pts pts' : list (pyval * pyval)) (st : state) :
  is_number a = true -> py_gt a (VInt 0) = true ->
  is_number d = true -> py_gt d (VInt 0) = true ->
  is_number k || is_None k = true ->
  pts <> [] ->
  forallb valid_point pts = true ->
  all_distinct (map fst pts) = true ->
  Permutation pts pts' ->
  compand a d k (VList (map point pts')) st
  = compand a d k (VList (map point pts)) st
  /\ snd (compand a d k (VList (map point pts')) st) = Returned tt.
Proof.
  intros Ha Hapos Hd Hdpos Hk Hne Hvalid Hdistinct Hperm.
  assert (Hvalid' : forallb valid_point pts' = true)
    by (eapply valid_points_perm; eassumption).
  assert (Hdistinct' : all_distinct (map fst pts') = true).
  { apply (all_distinct_perm (map fst pts)); [now apply Permutation_map| |].
    - rewrite Forall_map. apply Forall_forall. intros p Hp.
      rewrite forallb_forall in Hvalid.
      now destruct (valid_point_inv p (Hvalid p Hp)) as (Hx & _).
    - exact Hdistinct. }
  assert (Hne' : pts' <> []).
  { intros ->. apply Hne. now apply Permutation_sym, Permutation_nil in Hperm. }
  destruct (sorted_points pts Hvalid Hdistinct) as (sp & Hsp & Hp & Hs).
  destruct (sorted_points pts' Hvalid' Hdistinct') as (sp' & Hsp' & Hp' & Hs').
  assert (Heq : sp' = sp).
  { apply (strictly_sorted_unique (pyval * pyval)
             (fun p q : pyval * pyval => py_lt (fst p) (fst q) = true));
      try assumption.
    - intros x y. apply py_lt_asym.
    - rewrite Hp', <- Hperm. now symmetry. }
  subst sp'.
  rewrite (compand_valid_run a d k pts' sp st Ha Hapos Hd Hdpos Hk Hne' Hvalid'
             Hdistinct' Hsp').
  rewrite (compand_valid_run a d k pts sp st Ha Hapos Hd Hdpos Hk Hne Hvalid
             Hdistinct Hsp).
  split; reflexivity.
Qed.

Lemma compand_order_irrelevant_witness :
  compand (VFloat 0.3) (VFloat 0.8) (VFloat 6.0)
    (VList (map point [(VInt 0, VInt 0); (VInt (-70), VInt (-70));
                       (VInt (-60), VInt (-20))])) fresh
  = compand (VFloat 0.3) (VFloat 0.8) (VFloat 6.0)
      (VList (map point [(VInt (-70), VInt (-70)); (VInt (-60), VInt (-20));
                         (VInt 0, VInt 0)])) fresh
  /\ snd (compand (VFloat 0.3) (VFloat 0.8) (VFloat 6.0)
            (VList (map point [(VInt 0, VInt 0); (VInt (-70), VInt (-70));
                               (VInt (-60), VInt (-20))])) fresh)
     = Returned tt.
Proof.
  apply (compand_order_irrelevant (VFloat 0.3) (VFloat 0.8) (VFloat 6.0)
           [(VInt (-70), VInt (-70)); (VInt (-60), VInt (-20));
            (VInt 0, VInt 0)]
           [(VInt 0, VInt 0); (VInt (-70), VInt (-70));
            (VInt (-60), VInt (-20))] fresh);
    try reflexivity.
  - discriminate.
  - apply Permutation_sym, Permutation_cons_app with (l1 := [_; _]) (l2 := []).
    reflexivity.
Defined.

(** ** [compand] on malformed points *)

Lemma any_map_points (f : pyval -> bool) (pts : list (pyval * pyval)) :
  any f (map point pts) = existsb (fun p => f (point p)) pts.
Proof.
  unfold any. induction pts as [|p pts IH]; cbn [map existsb]; congruence.
Qed.

Lemma existsb_never A (l : list A) : existsb (fun _ => false) l = false.
Proof. induction l as [|x l IH]; cbn [existsb]; [reflexivity | exact IH]. Qed.

Lemma existsb_negb_false A (f : A -> bool) (l : list A) :
  forallb f l = true -> existsb (fun x => negb (f x)) l = false.
Proof.
  induction l as [|x l IH]; cbn [forallb existsb]; [reflexivity|].
  intros H. apply andb_true_iff in H as [Hx Hl]. now rewrite Hx, IH.
Qed.

(** X20: with valid attack, decay and soft knee, [compand] raises
    [TypeError] when [tf_points] is not a list, and [ValueError] when it
    is the empty list or a list of pairs of numbers one of which has a
    coordinate [> 0]; in each case the builder is left as it was. *)
Theorem compand_rejects_malformed_points (a d k : pyval) (st : state) :
  is_number a = true -> py_gt a (VInt 0) = true ->
  is_number d = true -> py_gt d (VInt 0) = true ->
  is_number k || is_None k = true ->
  (forall tf,
      isinstance_list tf = false ->
      snd (compand a d k tf st) = Raised (TypeError "tf_points must be a list.")
      /\ self (fst (compand a d k tf st)) = self st)
  /\ (snd (compand a d k (VList []) st)
        = Raised (ValueError "tf_points must have at least one point.")
      /\ self (fst (compand a d k (VList []) st)) = self st)
  /\ (forall pts : list (pyval * pyval),
      forallb (fun p => is_number (fst p) && is_number (snd p)) pts = true ->
      existsb (fun p => py_gt (fst p) (VInt 0) || py_gt (snd p) (VInt 0)) pts
        = true ->
      snd (compand a d k (VList (map point pts)) st)
        = Raised (ValueError "Tuple values in tf_points must be <= 0 (dB).")
      /\ self (fst (compand a d k (VList (map point pts)) st)) = self st).
Proof.
  intros Ha Hapos Hd Hdpos Hk.
  assert (Hatomic : forall tf o,
    snd (compand a d k tf st) = Raised o ->
    self (fst (compand a d k tf st)) = self st).
  { intros tf o H. destruct (compand a d k tf st) as [st' out] eqn:Hrun.
    cbn [snd fst] in *. subst out.
    exact (compand_atomic a d k tf st st' o Hrun). }
  split; [|split].
  - intros tf Htf.
    assert (Hout : snd (compand a d k tf st)
                   = Raised (TypeError "tf_points must be a list.")).
    { unfold compand.
      rewrite Ha, Hd, Hk, (py_gt_not_le _ _ Hapos), (py_gt_not_le _ _ Hdpos), Htf.
      destruct (py_gt a d); reflexivity. }
    split; [exact Hout | exact (Hatomic tf _ Hout)].
  - assert (Hout : snd (compand a d k (VList []) st)
                   = Raised (ValueError "tf_points must have at least one point.")).
    { unfold compand.
      rewrite Ha, Hd, Hk, (py_gt_not_le _ _ Hapos), (py_gt_not_le _ _ Hdpos).
      destruct (py_gt a d); reflexivity. }
    split; [exact Hout | exact (Hatomic _ _ Hout)].
  - intros pts Hnum Hpos.
    assert (Hout : snd (compand a d k (VList (map point pts)) st)
                   = Raised (ValueError
                               "Tuple values in tf_points must be <= 0 (dB).")).
    { unfold compand. cbn [items len isinstance_list].
      rewrite Ha, Hd, Hk, (py_gt_not_le _ _ Hapos), (py_gt_not_le _ _ Hdpos).
      rewrite !any_map_points. cbn [point getitem nth isinstance_tuple len
                                    List.length Nat.eqb negb].
      rewrite !existsb_never.
      rewrite (existsb_negb_false _
                 (fun p => is_number (fst p) && is_number (snd p)) pts Hnum).
      rewrite Hpos, length_map.
      destruct pts as [|p0 pts]; [discriminate|]. cbn [List.length Nat.eqb].
      destruct (py_gt a d); reflexivity. }
    split; [exact Hout | exact (Hatomic _ _ Hout)].
Qed.

Lemma compand_rejects_malformed_points_witness :
  (snd (compand (VFloat 0.3) (VFloat 0.8) VNone
          (VTuple [VTuple [VInt (-1); VInt (-1)]]) fresh)
   = Raised (TypeError "tf_points must be a list.")
   /\ self (fst (compand (VFloat 0.3) (VFloat 0.8) VNone
                   (VTuple [VTuple [VInt (-1); VInt (-1)]]) fresh))
      = self fresh)
  /\ (snd (compand (VFloat 0.3) (VFloat 0.8) VNone
             (VList (map point [(VInt (-1), VInt (-1)); (VInt (-2), VFloat 0.5)]))
             fresh)
      = Raised (ValueError "Tuple values in tf_points must be <= 0 (dB).")
      /\ self (fst (compand (VFloat 0.3) (VFloat 0.8) VNone
                      (VList (map point [(VInt (-1), VInt (-1));
                                         (VInt (-2), VFloat 0.5)]))
                      fresh))
         = self fresh).
Proof.
  split.
  - apply (proj1 (compand_rejects_malformed_points (VFloat 0.3) (VFloat 0.8)
                    VNone fresh eq_refl eq_refl eq_refl eq_refl eq_refl)).
    reflexivity.
  - apply (proj2 (proj2 (compand_rejects_malformed_points (VFloat 0.3)
                           (VFloat 0.8) VNone fresh
                           eq_refl eq_refl eq_refl eq_refl eq_refl)));
      reflexivity.
Defined.
